(** * Mandelbrot set explorer: the viewport engine of [mandelbrot-explorer.tsx]

    A shallow embedding of the React component [MandelbrotExplorer]: the
    colour mapper [colorPalette], the per-pixel escape loop and renderer of
    [drawMandelbrot], the navigation handlers [handleZoom], [handleUndoZoom]
    and [handleResetView], and the region capture of [handleMouseUp].

    Numbers.  A JavaScript [number] is a binary64 double.  The main
    embedding computes with exact rationals [Q]; it carries the statements
    whose truth does not depend on rounding or overflow (stored values read
    back, control flow, results that are exact on doubles).  Two things are
    kept in view there:
    - JavaScript's [===] on numbers is read as [Qeq] ([==]); values that the
      code merely stores and reads back are compared with Leibniz equality.
    - [Q]'s quotient by zero is [0] where JavaScript yields an infinity or
      [NaN]; a statement whose value depends on a quotient therefore carries
      the divisor's sign as a hypothesis.
    Where rounding or overflow decides, the statements are made on doubles:
    module [Binary64] runs the navigation handlers and the escape loop on
    primitive floats, module [Rounded] on rationals rounded to the nearest
    double after every operation.
    Integer-valued quantities (canvas sizes, pixel indices, iteration counts,
    colour channels) are [Z]. *)

From Stdlib Require Import ZArith QArith Qround Qabs Qminmax Qpower.
From Stdlib Require Import List String Bool Lia Lqa.
From Stdlib Require Import PrimFloat FloatOps SpecFloat.
Import ListNotations.

Local Open Scope Q_scope.

(** ** The [Math] functions the component calls *)

Module Math.

(** [Math.floor]. *)
Definition floor (q : Q) : Z := Qfloor q.

(** [Math.round]: nearest integer, a tie going towards plus infinity. *)
Definition round (q : Q) : Z := Qfloor (q + (1 # 2)).

(** [Math.min] and [Math.max] on numbers, [Math.abs]. *)
Definition min (a b : Q) : Q := Qmin a b.
Definition max (a b : Q) : Q := Qmax a b.
Definition abs (a : Q) : Q := Qabs a.

(** The integer part of [log2 r] for a positive rational [r]: the [k]
    with [2^k <= r < 2^(k+1)].  For [r >= 1] it is the binary logarithm of
    the integer quotient; below [1] it is the negated rounded-up logarithm
    of the inverse.  (For [r <= 0], where [Math.log2] is [-Infinity] or
    [NaN], the value is not meaningful.) *)
Definition floorLog2 (r : Q) : Z :=
  let n := Qnum r in
  let d := Zpos (Qden r) in
  if (d <=? n)%Z then Z.log2 (n / d)
  else (- Z.log2_up ((d + n - 1) / n))%Z.

(** [Math.floor(100 * Math.log2(z))], computed exactly as the integer part
    of [log2 (z^100)]. *)
Definition floor100log2 (z : Q) : Z := floorLog2 (z ^ 100).

End Math.

(** Strict comparison [a > b] as the code tests it. *)
Definition Qgtb (a b : Q) : bool := negb (Qle_bool a b).

(** ** Palettes *)

Definition Color : Type := (Z * Z * Z)%type.
Definition ColorPalette : Type := list Color.

Definition palette_initial : ColorPalette :=
  [ (0, 7, 100); (32, 107, 203); (237, 255, 255); (255, 170, 0); (0, 2, 0);
    (237, 255, 255); (255, 170, 0); (0, 2, 0) ]%Z.

Definition palette_original : ColorPalette :=
  [ (66, 30, 15); (25, 7, 26); (9, 1, 47); (4, 4, 73); (0, 7, 100);
    (12, 44, 138); (24, 82, 177); (57, 125, 209); (134, 181, 229);
    (211, 236, 248); (241, 233, 191); (248, 201, 95); (255, 170, 0);
    (204, 128, 0); (153, 87, 0); (106, 52, 3) ]%Z.

Definition palette_cool : ColorPalette :=
  [ (0, 0, 0); (0, 7, 100); (32, 107, 203); (237, 255, 255); (255, 170, 0);
    (0, 2, 0) ]%Z.

Definition palette_warm : ColorPalette :=
  [ (0, 0, 0); (102, 2, 4); (255, 0, 0); (255, 200, 0); (255, 255, 255) ]%Z.

Definition palette_grayscale : ColorPalette :=
  [ (0, 0, 0); (32, 32, 32); (64, 64, 64); (128, 128, 128); (192, 192, 192);
    (255, 255, 255) ]%Z.

Definition palette_psychedelic : ColorPalette :=
  [ (0, 0, 0); (255, 0, 0); (255, 255, 0); (0, 255, 0); (0, 255, 255);
    (0, 0, 255); (255, 0, 255) ]%Z.

Definition palette_ocean : ColorPalette :=
  [ (0, 0, 32); (0, 128, 255); (0, 255, 255); (255, 255, 255) ]%Z.

Definition palette_forest : ColorPalette :=
  [ (0, 32, 0); (0, 64, 0); (0, 128, 0); (128, 255, 0); (255, 255, 0) ]%Z.

(** The record [colorPalettes], in the order of the source. *)
Definition colorPalettes_entries : list (string * ColorPalette) :=
  [ ("initial", palette_initial); ("original", palette_original);
    ("cool", palette_cool); ("warm", palette_warm);
    ("grayscale", palette_grayscale); ("psychedelic", palette_psychedelic);
    ("ocean", palette_ocean); ("forest", palette_forest) ]%string.

Fixpoint assoc (k : string) (l : list (string * ColorPalette))
  : option ColorPalette :=
  match l with
  | [] => None
  | (k', v) :: l' => if String.eqb k k' then Some v else assoc k l'
  end.

(** [colorPalettes[name]]; [None] is JavaScript's [undefined]. *)
Definition colorPalettes (name : string) : option ColorPalette :=
  assoc name colorPalettes_entries.

(** [palette[i]] for a number [i] that is an integer; [None] is
    [undefined]. *)
Definition index (palette : ColorPalette) (i : Z) : option Color :=
  if (i <? 0)%Z then None else nth_error palette (Z.to_nat i).

(** ** ColorMapper: [colorPalette]

    The body of the [colorPalette] callback for a given palette.  [None]
    stands for the [TypeError] raised when [color1] or [color2] is
    [undefined] and is indexed. *)
Definition interpolate (palette : ColorPalette) (t : Q) : option Color :=
  let len := Z.of_nat (List.length palette) in
  let i := Math.floor (t * inject_Z (len - 1)) in
  let f := t * inject_Z (len - 1) - inject_Z i in
  match index palette i, index palette (Z.min (i + 1) (len - 1)) with
  | Some (r1, g1, b1), Some (r2, g2, b2) =>
      Some (Math.round (inject_Z r1 * (1 - f) + inject_Z r2 * f),
            Math.round (inject_Z g1 * (1 - f) + inject_Z g2 * f),
            Math.round (inject_Z b1 * (1 - f) + inject_Z b2 * f))
  | _, _ => None
  end.

(** [colorPalette(t)] under the selected palette name. *)
Definition colorPalette (currentPalette : string) (t : Q) : option Color :=
  match colorPalettes currentPalette with
  | Some palette => interpolate palette t
  | None => None
  end.

(** ** EscapeEvaluator: the [while] loop of [drawMandelbrot]

    [escapeLoop zx zy rem cX cY iteration] runs the loop body while
    [iteration < maxIter], [rem] being [maxIter - iteration]; it returns the
    final value of [iteration]. *)
Fixpoint escapeLoop (zx zy : Q) (rem : nat) (cX cY : Q) (iteration : Z) : Z :=
  match rem with
  | O => iteration
  | S rem' =>
      let xtemp := cX * cX - cY * cY + zx in
      let cY' := 2 * cX * cY + zy in
      let cX' := xtemp in
      if Qgtb (cX' * cX' + cY' * cY') 4 then iteration
      else escapeLoop zx zy rem' cX' cY' (iteration + 1)%Z
  end.

(** The orbit starts at the sampled point itself, with the counter at 0. *)
Definition evaluate (zx zy : Q) (maxIter : Z) : Z :=
  escapeLoop zx zy (Z.to_nat maxIter) zx zy 0%Z.

(** ** FractalRenderer: [drawMandelbrot] *)

(** A point [{ x, y }] of a selection gesture. *)
Record Point : Type := mkPoint { ptX : Q; ptY : Q }.

(** An entry of [zoomHistory]: [{ centerX, centerY, zoom }].  The entry has
    no iteration count. *)
Record ZoomEntry : Type := mkEntry {
  prevCenterX : Q;
  prevCenterY : Q;
  prevZoom : Q
}.

(** The component's [useState] cells. *)
Record State : Type := mkState {
  centerX : Q;
  centerY : Q;
  zoom : Q;
  maxIterations : Z;
  zoomHistory : list ZoomEntry;
  isMiniMapVisible : bool;
  currentPalette : string;
  isSelectingArea : bool;
  selectionStart : option Point;
  selectionEnd : option Point
}.

(** The initial values passed to [useState]. *)
Definition initialState : State :=
  {| centerX := 0; centerY := 0; zoom := 200; maxIterations := 100;
     zoomHistory := []; isMiniMapVisible := false;
     currentPalette := "initial"; isSelectingArea := false;
     selectionStart := None; selectionEnd := None |}.

(** The plane point sampled at pixel position [(x, y)] of a [width] x
    [height] buffer: [zx] and [zy] of the loop body. *)
Definition planeX (st : State) (width height : Z) (isMiniMap : bool) (x : Q)
  : Q :=
  let aspect := inject_Z width / inject_Z height in
  let scale := if isMiniMap then 50 else zoom st in
  ((x - inject_Z width / 2) / scale) * aspect
  + (if isMiniMap then - (1 # 2) else centerX st).

Definition planeY (st : State) (width height : Z) (isMiniMap : bool) (y : Q)
  : Q :=
  let scale := if isMiniMap then 50 else zoom st in
  (y - inject_Z height / 2) / scale + centerY st.

(** The iteration budget of a rendering. *)
Definition maxIterOf (st : State) (isMiniMap : bool) : Z :=
  if isMiniMap then 50%Z else maxIterations st.

(** The colour written at pixel [(x, y)]; [None] when [colorPalette]
    throws. *)
Definition pixelColor (st : State) (width height : Z) (isMiniMap : bool)
    (x y : Z) : option Color :=
  let zx := planeX st width height isMiniMap (inject_Z x) in
  let zy := planeY st width height isMiniMap (inject_Z y) in
  let maxIter := maxIterOf st isMiniMap in
  let iteration := evaluate zx zy maxIter in
  if (iteration =? maxIter)%Z then Some (0, 0, 0)%Z
  else colorPalette (currentPalette st) (inject_Z iteration / inject_Z maxIter).

(** [0, 1, ..., n-1]. *)
Definition upto (n : Z) : list Z := map Z.of_nat (seq 0 (Z.to_nat n)).

(** The image data, row by row ([pixelIndex = (y * width + x) * 4]). *)
Definition drawMandelbrot (st : State) (width height : Z) (isMiniMap : bool)
  : list (list (option Color)) :=
  map (fun y => map (fun x => pixelColor st width height isMiniMap x y)
                    (upto width))
      (upto height).

(** The red circle stroked on the mini-map: centre and radius. *)
Record Marker : Type := mkMarker { viewX : Q; viewY : Q; viewSize : Q }.

Definition miniMapMarker (st : State) (width height : Z) : Marker :=
  {| viewX := (centerX st + (1 # 2)) * 50 + inject_Z width / 2;
     viewY := centerY st * 50 + inject_Z height / 2;
     viewSize := Math.max 1 (Math.min ((inject_Z width / zoom st) * 50)
                                      (inject_Z width / 2)) |}.

(** ** ViewportHistory: the navigation handlers *)

(** The main canvas: its buffer size, the origin of its bounding rectangle
    and whether [getContext("2d")] yields a context. *)
Record Canvas : Type := mkCanvas {
  width : Z;
  height : Z;
  rectLeft : Q;
  rectTop : Q;
  context2d : bool
}.

Record MouseEvent : Type := mkMouse { clientX : Q; clientY : Q }.

(** [Math.min(1000, Math.floor(100 * Math.log2(z)))]. *)
Definition iterationBudget (z : Q) : Z :=
  Z.min 1000 (Math.floor100log2 z).

(** [handleZoom]: the click handler of the main canvas.  [canvasRef] is
    [canvasRef.current]. *)
Definition handleZoom (canvasRef : option Canvas) (e : MouseEvent)
    (st : State) : State :=
  if isSelectingArea st then st
  else
    match canvasRef with
    | None => st
    | Some canvas =>
        let x := clientX e - rectLeft canvas in
        let y := clientY e - rectTop canvas in
        let aspect := inject_Z (width canvas) / inject_Z (height canvas) in
        let newCenterX :=
          centerX st + ((x - inject_Z (width canvas) / 2) / zoom st) * aspect in
        let newCenterY :=
          centerY st + (y - inject_Z (height canvas) / 2) / zoom st in
        {| centerX := newCenterX;
           centerY := newCenterY;
           zoom := zoom st * 2;
           maxIterations := iterationBudget (zoom st * 2);
           zoomHistory :=
             zoomHistory st
               ++ [ {| prevCenterX := centerX st; prevCenterY := centerY st;
                       prevZoom := zoom st |} ];
           isMiniMapVisible := isMiniMapVisible st;
           currentPalette := currentPalette st;
           isSelectingArea := isSelectingArea st;
           selectionStart := selectionStart st;
           selectionEnd := selectionEnd st |}
    end.

(** [handleUndoZoom]: pops the last entry; the iteration count is computed
    from the popped zoom. *)
Definition handleUndoZoom (st : State) : State :=
  let n := List.length (zoomHistory st) in
  if (0 <? n)%nat then
    match nth_error (zoomHistory st) (n - 1) with
    | Some previousState =>
        {| centerX := prevCenterX previousState;
           centerY := prevCenterY previousState;
           zoom := prevZoom previousState;
           maxIterations := iterationBudget (prevZoom previousState);
           zoomHistory := removelast (zoomHistory st);
           isMiniMapVisible := isMiniMapVisible st;
           currentPalette := currentPalette st;
           isSelectingArea := isSelectingArea st;
           selectionStart := selectionStart st;
           selectionEnd := selectionEnd st |}
    | None => st
    end
  else st.

(** [handleResetView]. *)
Definition handleResetView (st : State) : State :=
  {| centerX := 0; centerY := 0; zoom := 200; maxIterations := 100;
     zoomHistory := [];
     isMiniMapVisible := isMiniMapVisible st;
     currentPalette := currentPalette st;
     isSelectingArea := isSelectingArea st;
     selectionStart := selectionStart st;
     selectionEnd := selectionEnd st |}.

(** The navigation gestures, and the state machine they drive. *)
Inductive Gesture : Type :=
| ZoomIn (canvasRef : option Canvas) (e : MouseEvent)
| Undo
| Reset.

Definition step (st : State) (g : Gesture) : State :=
  match g with
  | ZoomIn canvasRef e => handleZoom canvasRef e st
  | Undo => handleUndoZoom st
  | Reset => handleResetView st
  end.

Definition run (gs : list Gesture) (st : State) : State :=
  fold_left step gs st.

(** ** RegionCapture: the selection handlers *)

(** [toggleSelectArea]. *)
Definition toggleSelectArea (st : State) : State :=
  {| centerX := centerX st; centerY := centerY st; zoom := zoom st;
     maxIterations := maxIterations st; zoomHistory := zoomHistory st;
     isMiniMapVisible := isMiniMapVisible st;
     currentPalette := currentPalette st;
     isSelectingArea := negb (isSelectingArea st);
     selectionStart := selectionStart st;
     selectionEnd := selectionEnd st |}.

(** The state with its selection cells replaced. *)
Definition withSelection (st : State) (selecting : bool)
    (s e : option Point) : State :=
  {| centerX := centerX st; centerY := centerY st; zoom := zoom st;
     maxIterations := maxIterations st; zoomHistory := zoomHistory st;
     isMiniMapVisible := isMiniMapVisible st;
     currentPalette := currentPalette st;
     isSelectingArea := selecting;
     selectionStart := s;
     selectionEnd := e |}.

(** [handleMouseDown] and the state change of [handleMouseMove]. *)
Definition handleMouseDown (canvasRef : option Canvas) (e : MouseEvent)
    (st : State) : State :=
  if negb (isSelectingArea st) then st
  else
    match canvasRef with
    | None => st
    | Some canvas =>
        withSelection st (isSelectingArea st)
          (Some {| ptX := clientX e - rectLeft canvas;
                   ptY := clientY e - rectTop canvas |})
          (selectionEnd st)
    end.


(** The pixels [getImageData] copies, named by their rectangle on the
    canvas. *)
Record ImageData : Type := mkImage {
  imgLeft : Z;
  imgTop : Z;
  imgWidth : Z;
  imgHeight : Z
}.

(** Conversion of a number to a Web IDL [long]: the fraction is dropped. *)
Definition toLong (q : Q) : Z :=
  if Qle_bool 0 q then Qfloor q else Qceiling q.

(** [ctx.getImageData(sx, sy, sw, sh)].  This is the canvas API, not code of
    the component: by the HTML standard the call throws an [IndexSizeError]
    when [sw] or [sh] is zero, which is [None] here. *)
Definition getImageData (sx sy sw sh : Q) : option ImageData :=
  if ((toLong sw =? 0) || (toLong sh =? 0))%Z then None
  else Some {| imgLeft := toLong sx; imgTop := toLong sy;
               imgWidth := toLong sw; imgHeight := toLong sh |}.

(** What the download link carries: the sub-image and the numbers printed
    on it and in the file name (their decimal formatting is left out). *)
Record Capture : Type := mkCapture {
  image : ImageData;
  selectionCenterX : Q;
  selectionCenterY : Q;
  selectionZoom : Q
}.

(** How a call of [handleMouseUp] ends. *)
Inductive Outcome : Type :=
| Returned               (* an early [return]: nothing was done *)
| Threw                  (* an exception left the handler *)
| Downloaded (c : Capture).

(** The rectangle of the gesture: [left], [top], [width], [height]. *)
Definition selLeft (s e : Point) : Q := Math.min (ptX s) (ptX e).
Definition selTop (s e : Point) : Q := Math.min (ptY s) (ptY e).
Definition selWidth (s e : Point) : Q := Math.abs (ptX e - ptX s).
Definition selHeight (s e : Point) : Q := Math.abs (ptY e - ptY s).

(** [handleMouseUp].  [tempCtx] tells whether the temporary canvas yields a
    2D context.  The state is changed only when the download happened. *)
Definition handleMouseUp (canvasRef : option Canvas) (tempCtx : bool)
    (st : State) : Outcome * State :=
  match isSelectingArea st, selectionStart st, selectionEnd st with
  | true, Some s, Some e =>
      match canvasRef with
      | None => (Returned, st)
      | Some canvas =>
          if negb (context2d canvas) then (Returned, st)
          else
            let aspect := inject_Z (width canvas) / inject_Z (height canvas) in
            let left := selLeft s e in
            let top := selTop s e in
            let w := selWidth s e in
            let h := selHeight s e in
            let cx :=
              centerX st
              + ((left + w / 2 - inject_Z (width canvas) / 2) / zoom st)
                * aspect in
            let cy :=
              centerY st
              + (top + h / 2 - inject_Z (height canvas) / 2) / zoom st in
            let z :=
              zoom st * Math.min (inject_Z (width canvas) / w)
                                 (inject_Z (height canvas) / h) in
            match getImageData left top w h with
            | None => (Threw, st)
            | Some imageData =>
                if negb tempCtx then (Returned, st)
                else
                  (Downloaded {| image := imageData;
                                 selectionCenterX := cx;
                                 selectionCenterY := cy;
                                 selectionZoom := z |},
                   withSelection st false None None)
            end
      end
  | _, _, _ => (Returned, st)
  end.

(** ** Scenarios and invariants used in the statements *)

(** The 800 x 600 canvas of the scenarios, wherever it sits on the page. *)
Definition canvas800x600 (left top : Q) : Canvas :=
  {| width := 800; height := 600; rectLeft := left; rectTop := top;
     context2d := true |}.

(** A click at canvas pixel [(x, y)]. *)
Definition clickAt (canvas : Canvas) (x y : Q) : MouseEvent :=
  {| clientX := rectLeft canvas + x; clientY := rectTop canvas + y |}.

(** The mini-map canvas is 150 x 150. *)
Definition miniMapSize : Z := 150.

(** Reading a pixel back from the image data. *)
Definition pixelAt (img : list (list (option Color))) (x y : Z)
  : option (option Color) :=
  match nth_error img (Z.to_nat y) with
  | Some row => nth_error row (Z.to_nat x)
  | None => None
  end.

(** [toggleMiniMap] and [handlePaletteChange]. *)
Definition toggleMiniMap (st : State) : State :=
  {| centerX := centerX st; centerY := centerY st; zoom := zoom st;
     maxIterations := maxIterations st; zoomHistory := zoomHistory st;
     isMiniMapVisible := negb (isMiniMapVisible st);
     currentPalette := currentPalette st;
     isSelectingArea := isSelectingArea st;
     selectionStart := selectionStart st;
     selectionEnd := selectionEnd st |}.

Definition handlePaletteChange (value : string) (st : State) : State :=
  {| centerX := centerX st; centerY := centerY st; zoom := zoom st;
     maxIterations := maxIterations st; zoomHistory := zoomHistory st;
     isMiniMapVisible := isMiniMapVisible st;
     currentPalette := value;
     isSelectingArea := isSelectingArea st;
     selectionStart := selectionStart st;
     selectionEnd := selectionEnd st |}.

(** The three channels of a colour lie in [[lo, hi]]. *)
Definition channelsIn (lo hi : Z) (c : Color) : Prop :=
  let '(r, g, b) := c in
  (lo <= r <= hi)%Z /\ (lo <= g <= hi)%Z /\ (lo <= b <= hi)%Z.

Definition channelsInb (lo hi : Z) (c : Color) : bool :=
  let '(r, g, b) := c in
  ((lo <=? r) && (r <=? hi) && (lo <=? g) && (g <=? hi)
   && (lo <=? b) && (b <=? hi))%Z.

(** [n] presses of the undo button. *)
Fixpoint undoTimes (n : nat) (st : State) : State :=
  match n with
  | O => st
  | S n' => undoTimes n' (handleUndoZoom st)
  end.

(** Zoom-in clicks, each on the canvas as it is at that moment. *)
Definition zoomIns (clicks : list (Canvas * MouseEvent)) : list Gesture :=
  map (fun ce => ZoomIn (Some (fst ce)) (snd ce)) clicks.

(** The depth of a view is the length of its history: the zoom is
    [200 * 2^depth], entry [i] of the history was taken at depth [i], the
    view of depth 0 is centred at the origin, and the budget is the one of
    the formula unless the view is the fresh home view. *)
Definition depthInvariant (st : State) : Prop :=
  zoom st == inject_Z (200 * 2 ^ Z.of_nat (List.length (zoomHistory st)))
  /\ (forall i entry, nth_error (zoomHistory st) i = Some entry ->
        prevZoom entry == inject_Z (200 * 2 ^ Z.of_nat i))
  /\ (forall entry, nth_error (zoomHistory st) 0 = Some entry ->
        prevCenterX entry = 0 /\ prevCenterY entry = 0)
  /\ (zoomHistory st = [] -> centerX st = 0 /\ centerY st = 0)
  /\ (maxIterations st = iterationBudget (zoom st)
      \/ (maxIterations st = 100%Z /\ zoomHistory st = [])).

(** The part of the state that navigation is about. *)
Definition sameView (st1 st2 : State) : Prop :=
  centerX st1 = centerX st2 /\ centerY st1 = centerY st2
  /\ zoom st1 = zoom st2 /\ zoomHistory st1 = zoomHistory st2.

(** The cells navigation never writes. *)
Definition sameShell (st1 st2 : State) : Prop :=
  isMiniMapVisible st1 = isMiniMapVisible st2
  /\ currentPalette st1 = currentPalette st2
  /\ isSelectingArea st1 = isSelectingArea st2
  /\ selectionStart st1 = selectionStart st2
  /\ selectionEnd st1 = selectionEnd st2.

(** ** The same engine on IEEE doubles

    Two further embeddings give the arithmetic of the source its rounding
    and its overflow.  [Binary64] runs the navigation handlers and the
    escape loop on Rocq's primitive floats, which are binary64 numbers:
    every [+], [-], [*], [/] and comparison there is the operation
    JavaScript performs.  [Rounded] describes the same numbers as rationals
    rounded to the nearest double after each operation, so that bounds on
    a result can be proved for all inputs at once.  In both, [Math.log2]
    is the exact logarithm as before. *)

Module Rounded.

(** A double: not-a-number, an infinity, or a finite value.  The two zeros
    are one value here; the escape loop never divides, so their sign
    cannot reach a result. *)
Inductive num : Type :=
| NaN
| PInf
| NInf
| Fin (q : Q).

(** The exponent of the last mantissa bit of the double nearest to [q]:
    52 places below the binade of [q], and never below that of the
    subnormal numbers. *)
Definition exponentOf (q : Q) : Z :=
  Z.max (Math.floorLog2 (Qabs q) - 52) (-1074).

(** The integer nearest to [r], a tie going to the even one. *)
Definition nearestEven (r : Q) : Z :=
  let f := Qfloor r in
  match Qcompare (r - inject_Z f) (1 # 2) with
  | Lt => f
  | Gt => (f + 1)%Z
  | Eq => if Z.even f then f else (f + 1)%Z
  end.

(** [q] rounded to 53 significant bits. *)
Definition nearest (q : Q) : Q :=
  let e := exponentOf q in
  inject_Z (nearestEven (q * 2 ^ (- e))) * 2 ^ e.

(** The double an exact result [q] is stored as: rounded to nearest, and
    an infinity once the rounded value reaches [2^1024]. *)
Definition rnd (q : Q) : num :=
  if Qeq_bool q 0 then Fin 0
  else
    let r := nearest q in
    if Qle_bool (2 ^ 1024) r then PInf
    else if Qle_bool r (- 2 ^ 1024) then NInf
    else Fin r.

Definition add (a b : num) : num :=
  match a, b with
  | NaN, _ | _, NaN => NaN
  | PInf, NInf | NInf, PInf => NaN
  | PInf, _ | _, PInf => PInf
  | NInf, _ | _, NInf => NInf
  | Fin x, Fin y => rnd (x + y)
  end.

Definition sub (a b : num) : num :=
  match a, b with
  | NaN, _ | _, NaN => NaN
  | PInf, PInf | NInf, NInf => NaN
  | PInf, _ | _, NInf => PInf
  | NInf, _ | _, PInf => NInf
  | Fin x, Fin y => rnd (x - y)
  end.

Definition signedInf (positive : bool) : num :=
  if positive then PInf else NInf.

Definition mul (a b : num) : num :=
  match a, b with
  | NaN, _ | _, NaN => NaN
  | Fin x, Fin y => rnd (x * y)
  | PInf, PInf | NInf, NInf => PInf
  | PInf, NInf | NInf, PInf => NInf
  | PInf, Fin x | Fin x, PInf =>
      if Qeq_bool x 0 then NaN else signedInf (Qgtb x 0)
  | NInf, Fin x | Fin x, NInf =>
      if Qeq_bool x 0 then NaN else signedInf (negb (Qgtb x 0))
  end.

(** [a > b]; false as soon as one side is not a number. *)
Definition gt (a b : num) : bool :=
  match a, b with
  | NaN, _ | _, NaN => false
  | PInf, PInf => false
  | PInf, _ => true
  | _, PInf => false
  | NInf, _ => false
  | _, NInf => true
  | Fin x, Fin y => Qgtb x y
  end.

(** The [while] loop of [drawMandelbrot], operation by operation. *)
Fixpoint escapeLoop (zx zy : num) (rem : nat) (cX cY : num) (iteration : Z)
  : Z :=
  match rem with
  | O => iteration
  | S rem' =>
      let xtemp := add (sub (mul cX cX) (mul cY cY)) zx in
      let cY' := add (mul (mul (Fin 2) cX) cY) zy in
      let cX' := xtemp in
      if gt (add (mul cX' cX') (mul cY' cY')) (Fin 4) then iteration
      else escapeLoop zx zy rem' cX' cY' (iteration + 1)%Z
  end.

Definition evaluate (zx zy : num) (maxIter : Z) : Z :=
  escapeLoop zx zy (Z.to_nat maxIter) zx zy 0%Z.

(** A primitive float as a [num]. *)
Definition ofFloat (f : float) : num :=
  match Prim2SF f with
  | S754_zero _ => Fin 0
  | S754_infinity s => if s then NInf else PInf
  | S754_nan => NaN
  | S754_finite s m e =>
      Fin (inject_Z (if s then Z.neg m else Z.pos m) * 2 ^ e)
  end.

(** The [num] [v] and the primitive float [f] are the same number. *)
Definition agrees (v : num) (f : float) : bool :=
  match v, ofFloat f with
  | NaN, NaN | PInf, PInf | NInf, NInf => true
  | Fin x, Fin y => Qeq_bool x y
  | _, _ => false
  end.

(** The numbers a double can hold exactly include [k * 2^j] for an
    integer [k] of fewer than 54 bits and [j >= -1074]. *)
Definition grid (c : Q) : Prop :=
  exists k j : Z,
    (Z.abs k < 2 ^ 53)%Z /\ (-1074 <= j)%Z /\ c == inject_Z k * 2 ^ j.

(** [v] is a number, and at least (at most) [c]. *)
Definition atLeast (c : Q) (v : num) : Prop :=
  match v with PInf => True | Fin r => c <= r | _ => False end.

Definition atMost (c : Q) (v : num) : Prop :=
  match v with NInf => True | Fin r => r <= c | _ => False end.

End Rounded.

Module Binary64.

(** The value of a finite double. *)
Definition toQ (f : float) : option Q :=
  match Prim2SF f with
  | S754_zero _ => Some 0
  | S754_finite s m e =>
      Some (inject_Z (if s then Z.neg m else Z.pos m) * 2 ^ e)
  | S754_infinity _ | S754_nan => None
  end.

(** An integer of fewer than 54 bits as a double. *)
Definition ofZ (z : Z) : float :=
  match z with
  | Z0 => 0%float
  | Zpos p => SF2Prim (S754_finite false p 0)
  | Zneg p => SF2Prim (S754_finite true p 0)
  end.

(** [Math.floor(100 * Math.log2(z))]: the exact integer part for a
    positive finite [z]; [Math.log2] is [Infinity] at [Infinity],
    [-Infinity] at zero and [NaN] below zero and at [NaN]. *)
Definition floor100log2 (z : float) : float :=
  match toQ z with
  | Some q =>
      if Qgtb q 0 then ofZ (Math.floor100log2 q)
      else if Qeq_bool q 0 then neg_infinity
      else nan
  | None => if (0 <? z)%float then infinity else nan
  end.

(** [Math.min(a, b)]. *)
Definition min (a b : float) : float :=
  if is_nan a || is_nan b then nan
  else if (b <? a)%float then b else a.

Definition iterationBudget (z : float) : float :=
  min 1000 (floor100log2 z).

Record ZoomEntry : Type := mkEntry {
  prevCenterX : float;
  prevCenterY : float;
  prevZoom : float
}.

(** The cells the navigation handlers read and write. *)
Record State : Type := mkState {
  centerX : float;
  centerY : float;
  zoom : float;
  maxIterations : float;
  zoomHistory : list ZoomEntry;
  isSelectingArea : bool
}.

Definition initialState : State :=
  {| centerX := 0; centerY := 0; zoom := 200; maxIterations := 100;
     zoomHistory := []; isSelectingArea := false |}.

Record Canvas : Type := mkCanvas {
  width : float;
  height : float;
  rectLeft : float;
  rectTop : float
}.

Record MouseEvent : Type := mkMouse { clientX : float; clientY : float }.

Definition handleZoom (canvasRef : option Canvas) (e : MouseEvent)
    (st : State) : State :=
  if isSelectingArea st then st
  else
    match canvasRef with
    | None => st
    | Some canvas =>
        let x := (clientX e - rectLeft canvas)%float in
        let y := (clientY e - rectTop canvas)%float in
        let aspect := (width canvas / height canvas)%float in
        let newCenterX :=
          (centerX st + ((x - width canvas / 2) / zoom st) * aspect)%float in
        let newCenterY :=
          (centerY st + (y - height canvas / 2) / zoom st)%float in
        {| centerX := newCenterX;
           centerY := newCenterY;
           zoom := (zoom st * 2)%float;
           maxIterations := iterationBudget (zoom st * 2)%float;
           zoomHistory :=
             zoomHistory st
               ++ [ {| prevCenterX := centerX st; prevCenterY := centerY st;
                       prevZoom := zoom st |} ];
           isSelectingArea := isSelectingArea st |}
    end.

Definition handleUndoZoom (st : State) : State :=
  let n := List.length (zoomHistory st) in
  if (0 <? n)%nat then
    match nth_error (zoomHistory st) (n - 1) with
    | Some previousState =>
        {| centerX := prevCenterX previousState;
           centerY := prevCenterY previousState;
           zoom := prevZoom previousState;
           maxIterations := iterationBudget (prevZoom previousState);
           zoomHistory := removelast (zoomHistory st);
           isSelectingArea := isSelectingArea st |}
    | None => st
    end
  else st.

Definition handleResetView (st : State) : State :=
  {| centerX := 0; centerY := 0; zoom := 200; maxIterations := 100;
     zoomHistory := [];
     isSelectingArea := isSelectingArea st |}.

Inductive Gesture : Type :=
| ZoomIn (canvasRef : option Canvas) (e : MouseEvent)
| Undo
| Reset.

Definition step (st : State) (g : Gesture) : State :=
  match g with
  | ZoomIn canvasRef e => handleZoom canvasRef e st
  | Undo => handleUndoZoom st
  | Reset => handleResetView st
  end.

Definition run (gs : list Gesture) (st : State) : State :=
  fold_left step gs st.

(** The [while] loop of [drawMandelbrot]. *)
Fixpoint escapeLoop (zx zy : float) (rem : nat) (cX cY : float)
    (iteration : Z) : Z :=
  match rem with
  | O => iteration
  | S rem' =>
      let xtemp := (cX * cX - cY * cY + zx)%float in
      let cY' := (2 * cX * cY + zy)%float in
      let cX' := xtemp in
      if (4 <? cX' * cX' + cY' * cY')%float then iteration
      else escapeLoop zx zy rem' cX' cY' (iteration + 1)%Z
  end.

Definition evaluate (zx zy : float) (maxIter : Z) : Z :=
  escapeLoop zx zy (Z.to_nat maxIter) zx zy 0%Z.

(** The zoom after [n] doublings of the initial 200. *)
Fixpoint scale (n : nat) : float :=
  match n with
  | O => 200%float
  | S n' => (scale n' * 2)%float
  end.

(** A zoom that is [200 * 2^k] exactly, and still a finite double. *)
Definition doubled (k : Z) (z : float) : Prop :=
  exists q, toQ z = Some q /\ q == inject_Z (200 * 2 ^ k).

(** The zoom of a view of depth [n] and the zooms of its history, the
    centre of the view of depth 0, and the budget. *)
Definition depthInvariant (st : State) : Prop :=
  zoom st = scale (List.length (zoomHistory st))
  /\ (forall i entry, nth_error (zoomHistory st) i = Some entry ->
        prevZoom entry = scale i)
  /\ (forall entry, nth_error (zoomHistory st) 0 = Some entry ->
        prevCenterX entry = 0%float /\ prevCenterY entry = 0%float)
  /\ (zoomHistory st = [] ->
        centerX st = 0%float /\ centerY st = 0%float)
  /\ (maxIterations st = iterationBudget (zoom st)
      \/ (maxIterations st = 100%float /\ zoomHistory st = [])).

(** The last depth at which [200 * 2^n] is below [2^1024]. *)
Definition lastFiniteDepth : nat := 1016.

(** The check made on each finite depth: the zoom is [200 * 2^n] and, as
    a double, at least 200 and positive. *)
Definition depthCheck (n : nat) : bool :=
  match toQ (scale n) with
  | Some q => Qeq_bool q (inject_Z (200 * 2 ^ Z.of_nat n))
  | None => false
  end
  && (200 <=? scale n)%float && (0 <? scale n)%float.

(** What the zoom of a reachable view can be: [200 * 2^k] with
    [0 <= k <= 1016], or [Infinity]. *)
Definition reachableScale (z : float) : Prop :=
  z = infinity \/ exists k : Z, (0 <= k <= 1016)%Z /\ doubled k z.

(** The check made on each value [k] that [floor(100 * log2 zoom)] takes
    on a doubled zoom: clamped by [Math.min], it lies in [[100, 1000]]. *)
Definition budgetCheck (k : Z) : bool :=
  (100 <=? min 1000 (ofZ k))%float && (min 1000 (ofZ k) <=? 1000)%float.

(** A budget in [[100, 1000]]. *)
Definition budgetInRange (b : float) : Prop :=
  (100 <=? b)%float = true /\ (b <=? 1000)%float = true.

(** The clicks of the overflow scenario: 1017 zoom-ins at the middle of an
    800 x 600 canvas. *)
Definition canvas800x600 : Canvas :=
  {| width := 800; height := 600; rectLeft := 0; rectTop := 0 |}.

Definition overflowClicks : list Gesture :=
  repeat (ZoomIn (Some canvas800x600) {| clientX := 400; clientY := 300 |})
         1017.

End Binary64.

(** Sample doubles on which the two embeddings are compared: small and
    large, normal and subnormal, ties, the largest double, infinities and
    not-a-number. *)
Definition sampleDoubles : list float :=
  [ 0; 1; 3; 0x1p+53; 0x1p-1022; 0x0.8p-1022; 0x1.999999999999ap-4; 0x1.4e718d7d7625ap+664;
    0x1.fffffffffffffp+1023; 0x0.0000000000001p-1022;
    0x1.47ae147ae147bp-28; -2; -0x1.8p+0; 0x1.0000000000001p+53;
    infinity; neg_infinity; nan ]%float.

(** Sample points of the plane for the escape loop, with a budget: the
    overflow point, a point just outside the disk of radius 2, points that
    escape after a few turns and points that never do. *)
Definition samplePoints : list (float * float) :=
  [ (0x1.4e718d7d7625ap+664, 0x1.4e718d7d7625ap+664);
    (-2, 0x1.47ae147ae147bp-28); (-0x1p-1, -1); (3, 0x1.cp+1);
    (0, 0); (-2, 0); (0x1.3333333333333p-2, 0x1.199999999999ap-1);
    (infinity, 0); (0x1p+600, 0x1.8p+1) ]%float.

Definition evaluateAgreesOn (p : float * float) : bool :=
  (Rounded.evaluate (Rounded.ofFloat (fst p)) (Rounded.ofFloat (snd p)) 12
   =? Binary64.evaluate (fst p) (snd p) 12)%Z.

Definition agreeOn (a b : float) : bool :=
  Rounded.agrees (Rounded.mul (Rounded.ofFloat a) (Rounded.ofFloat b))
                 (a * b)%float
  && Rounded.agrees (Rounded.add (Rounded.ofFloat a) (Rounded.ofFloat b))
                    (a + b)%float
  && Rounded.agrees (Rounded.sub (Rounded.ofFloat a) (Rounded.ofFloat b))
                    (a - b)%float
  && Bool.eqb (Rounded.gt (Rounded.ofFloat a) (Rounded.ofFloat b))
              (b <? a)%float.

(** * Properties *)

(** ** The escape loop *)

Lemma Qgtb_true_iff (a b : Q) : Qgtb a b = true <-> b < a.
Proof.
  unfold Qgtb. rewrite negb_true_iff.
  split; intro H.
  - apply Qnot_le_lt. intro Hle.
    apply Qle_bool_iff in Hle. congruence.
  - destruct (Qle_bool a b) eqn:E; [ | reflexivity ].
    apply Qle_bool_iff in E. exfalso. apply (Qlt_not_le _ _ H E).
Qed.

(** At the plane origin the orbit never moves, so the loop uses up all the
    turns it is given. *)
Lemma escapeLoop_origin (rem : nat) (iteration : Z) :
  escapeLoop 0 0 rem 0 0 iteration = (iteration + Z.of_nat rem)%Z.
Proof.
  revert iteration.
  induction rem as [ | rem IH ]; intro iteration.
  - simpl. lia.
  - change (escapeLoop 0 0 (S rem) 0 0 iteration)
      with (escapeLoop 0 0 rem 0 0 (iteration + 1)%Z).
    rewrite IH. lia.
Qed.

(** The counter only grows, and by at most the number of turns left: the
    result of [evaluate] lies between 0 and the budget. *)
Lemma escapeLoop_range (zx zy : Q) (rem : nat) (cX cY : Q) (iteration : Z) :
  (iteration <= escapeLoop zx zy rem cX cY iteration
   <= iteration + Z.of_nat rem)%Z.
Proof.
  revert cX cY iteration.
  induction rem as [ | rem IH ]; intros cX cY iteration.
  - simpl. lia.
  - cbn [escapeLoop].
    destruct (Qgtb _ 4).
    + lia.
    + specialize (IH (cX * cX - cY * cY + zx) (2 * cX * cY + zy)
                     (iteration + 1)%Z).
      lia.
Qed.

Lemma evaluate_range (zx zy : Q) (maxIter : Z) :
  (0 <= maxIter)%Z -> (0 <= evaluate zx zy maxIter <= maxIter)%Z.
Proof.
  intro H. unfold evaluate.
  pose proof (escapeLoop_range zx zy (Z.to_nat maxIter) zx zy 0). lia.
Qed.

(** C6.  The plane origin never escapes: for every budget [N >= 1] the loop
    runs to the budget and returns [N]. *)
Theorem evaluate_origin_is_budget (N : Z) :
  (1 <= N)%Z -> evaluate 0 0 N = N.
Proof.
  intro HN. unfold evaluate.
  rewrite escapeLoop_origin. lia.
Qed.

Lemma evaluate_origin_is_budget_witness :
  (1 <= 100)%Z /\ evaluate 0 0 100 = 100%Z.
Proof.
  assert (H : (1 <= 100)%Z) by lia.
  split; [ exact H | exact (evaluate_origin_is_budget 100 H) ].
Defined.

(** ** The colour mapper *)

(** [Qfloor] is determined by the unit interval its argument lies in. *)
Lemma Qfloor_unique (q : Q) (k : Z) :
  inject_Z k <= q -> q < inject_Z (k + 1) -> Qfloor q = k.
Proof.
  intros Hlo Hhi.
  pose proof (Qfloor_le q) as Hfl.
  pose proof (Qlt_floor q) as Hfu.
  assert (H1 : (Qfloor q < k + 1)%Z).
  { rewrite Zlt_Qlt. eapply Qle_lt_trans; eassumption. }
  assert (H2 : (k < Qfloor q + 1)%Z).
  { rewrite Zlt_Qlt. eapply Qle_lt_trans; eassumption. }
  lia.
Qed.

(** [Math.round] leaves an integer alone. *)
Lemma round_integer (q : Q) (z : Z) : q == inject_Z z -> Math.round q = z.
Proof.
  intro H. unfold Math.round.
  apply Qfloor_unique.
  - rewrite H. lra.
  - rewrite H, inject_Z_plus. change (inject_Z 1) with 1. lra.
Qed.

Lemma floor_integer (q : Q) (z : Z) : q == inject_Z z -> Math.floor q = z.
Proof.
  intro H. unfold Math.floor.
  apply Qfloor_unique.
  - rewrite H. lra.
  - rewrite H, inject_Z_plus. change (inject_Z 1) with 1. lra.
Qed.

(** With a zero fraction the blend of two channels is the first one. *)
Lemma blend_zero (a b : Z) (f : Q) :
  f == 0 -> Math.round (inject_Z a * (1 - f) + inject_Z b * f) = a.
Proof.
  intro Hf. apply round_integer. rewrite Hf. ring.
Qed.

(** When the scaled ratio is an integer [k] and both palette reads succeed,
    the fraction is zero and the mapper returns entry [k]. *)
Lemma interpolate_at_entry (palette : ColorPalette) (t : Q) (k : Z) (c : Color) :
  t * inject_Z (Z.of_nat (List.length palette) - 1) == inject_Z k ->
  index palette k = Some c ->
  (exists c2, index palette
                (Z.min (k + 1) (Z.of_nat (List.length palette) - 1)) = Some c2) ->
  interpolate palette t = Some c.
Proof.
  intros Ht Hc [c2 Hc2].
  unfold interpolate.
  rewrite (floor_integer _ k Ht), Hc, Hc2.
  destruct c as [[r1 g1] b1], c2 as [[r2 g2] b2].
  assert (Hf : t * inject_Z (Z.of_nat (List.length palette) - 1) - inject_Z k
               == 0) by (rewrite Ht; ring).
  rewrite !(blend_zero _ _ _ Hf). reflexivity.
Qed.

(** Ratio 0 yields the first entry of any non-empty palette. *)
Lemma interpolate_zero (c : Color) (rest : ColorPalette) :
  interpolate (c :: rest) 0 = Some c.
Proof.
  apply (interpolate_at_entry (c :: rest) 0 0 c).
  - ring.
  - reflexivity.
  - destruct rest as [ | c' rest' ].
    + exists c. reflexivity.
    + exists c'.
      replace (Z.min (0 + 1) (Z.of_nat (List.length (c :: c' :: rest')) - 1))
        with 1%Z by (simpl List.length; lia).
      reflexivity.
Qed.

(** Ratio 1 yields the last entry: both reads land on index [len - 1]. *)
Lemma interpolate_one (palette : ColorPalette) (c : Color) :
  nth_error palette (List.length palette - 1) = Some c ->
  interpolate palette 1 = Some c.
Proof.
  intro Hlast.
  assert (Hne : (0 < List.length palette)%nat).
  { destruct palette; [ discriminate | simpl; lia ]. }
  set (k := (Z.of_nat (List.length palette) - 1)%Z).
  assert (Hk : index palette k = Some c).
  { unfold index, k.
    destruct (Z.of_nat (List.length palette) - 1 <? 0)%Z eqn:E; [ lia | ].
    replace (Z.to_nat (Z.of_nat (List.length palette) - 1))
      with (List.length palette - 1)%nat by lia.
    exact Hlast. }
  assert (Hmin : Z.min (k + 1) k = k) by lia.
  apply (interpolate_at_entry palette 1 k c).
  - fold k. ring.
  - exact Hk.
  - exists c. fold k. rewrite Hmin. exact Hk.
Qed.

(** Every registered palette is one of the eight of the source. *)
Lemma colorPalettes_cases (name : string) (palette : ColorPalette) :
  colorPalettes name = Some palette ->
  In palette [ palette_initial; palette_original; palette_cool; palette_warm;
               palette_grayscale; palette_psychedelic; palette_ocean;
               palette_forest ].
Proof.
  unfold colorPalettes, colorPalettes_entries. simpl assoc.
  repeat match goal with
         | |- context [ String.eqb name ?s ] => destruct (String.eqb name s)
         end;
    intro H; inversion H; subst; simpl; tauto.
Qed.

(** C8.  For every registered palette, ratio 0 maps to the first entry and
    ratio 1 to the last one; at ratio 1 both palette reads stay inside the
    palette, so a colour (not an error) is returned. *)
Theorem colorPalette_endpoints (name : string) (palette : ColorPalette) :
  colorPalettes name = Some palette ->
  exists first last : Color,
    nth_error palette 0 = Some first /\
    nth_error palette (List.length palette - 1) = Some last /\
    colorPalette name 0 = Some first /\
    colorPalette name 1 = Some last.
Proof.
  intro Hreg.
  assert (Hcases := colorPalettes_cases name palette Hreg).
  unfold colorPalette. rewrite Hreg.
  assert (Hne : exists c rest, palette = c :: rest).
  { simpl in Hcases.
    repeat (destruct Hcases as [ <- | Hcases ]; [ eexists; eexists; reflexivity | ]).
    contradiction. }
  destruct Hne as (c & rest & ->).
  assert (Hl : exists l, nth_error (c :: rest) (List.length (c :: rest) - 1)
                         = Some l).
  { destruct (nth_error (c :: rest) (List.length (c :: rest) - 1)) eqn:E.
    - eexists; reflexivity.
    - apply nth_error_None in E. simpl in E. lia. }
  destruct Hl as [l Hl].
  exists c, l.
  split; [ reflexivity | ].
  split; [ exact Hl | ].
  split; [ apply interpolate_zero | apply interpolate_one; exact Hl ].
Qed.

Lemma colorPalette_endpoints_witness :
  colorPalettes "cool" = Some palette_cool /\
  exists first last : Color,
    nth_error palette_cool 0 = Some first /\
    nth_error palette_cool (List.length palette_cool - 1) = Some last /\
    colorPalette "cool" 0 = Some first /\
    colorPalette "cool" 1 = Some last.
Proof.
  assert (H : colorPalettes "cool" = Some palette_cool) by reflexivity.
  split; [ exact H | exact (colorPalette_endpoints "cool" palette_cool H) ].
Defined.

(** ** The binary logarithm of the iteration budget *)

Lemma two_pow_Q (k : Z) : (0 <= k)%Z -> 2 ^ k == inject_Z (2 ^ k).
Proof.
  intro Hk. change 2 with (inject_Z 2) at 1.
  symmetry. apply Zpower_Qpower. exact Hk.
Qed.

Lemma two_pow_neg_Q (k : Z) : (0 <= k)%Z -> 2 ^ (- k) == / inject_Z (2 ^ k).
Proof.
  intro Hk. rewrite Qpower_opp, (two_pow_Q k Hk). reflexivity.
Qed.

(** [floorLog2 r] is the integer part of the binary logarithm of a positive
    rational: [2^k <= r < 2^(k+1)]. *)
Lemma floorLog2_spec (r : Q) :
  0 < r ->
  2 ^ Math.floorLog2 r <= r /\ r < 2 ^ (Math.floorLog2 r + 1).
Proof.
  destruct r as [n d]. intro Hpos.
  assert (Hn : (0 < n)%Z) by (unfold Qlt in Hpos; simpl in Hpos; lia).
  unfold Math.floorLog2. simpl Qnum. simpl Qden.
  destruct (Z.leb_spec (Zpos d) n) as [Hdn | Hnd].
  - (* r >= 1 *)
    set (q := (n / Zpos d)%Z).
    assert (Hq : (0 < q)%Z) by (apply Z.div_str_pos; lia).
    destruct (Z.log2_spec q Hq) as [Hlo Hhi].
    pose proof (Z.log2_nonneg q) as Hk.
    pose proof (Z.div_mod n (Zpos d) ltac:(lia)) as Hdiv.
    pose proof (Z.mod_pos_bound n (Zpos d) ltac:(lia)) as Hmod.
    fold q in Hdiv.
    unfold Z.succ in Hhi.
    split.
    + rewrite (two_pow_Q _ Hk). unfold Qle. simpl. nia.
    + rewrite (two_pow_Q (Z.log2 q + 1)) by lia. unfold Qlt. simpl. nia.
  - (* r < 1 *)
    set (c := ((Zpos d + n - 1) / n)%Z).
    pose proof (Z.div_mod (Zpos d + n - 1) n ltac:(lia)) as Hdiv.
    pose proof (Z.mod_pos_bound (Zpos d + n - 1) n Hn) as Hmod.
    fold c in Hdiv.
    assert (Hc : (1 < c)%Z) by nia.
    destruct (Z.log2_up_spec c Hc) as [Hlo Hhi].
    pose proof (Z.log2_up_pos c Hc) as Hm.
    set (m := Z.log2_up c) in *.
    assert (Hp1 : (0 < 2 ^ m)%Z) by (apply Z.pow_pos_nonneg; lia).
    assert (Hp2 : (0 < 2 ^ Z.pred m)%Z) by (apply Z.pow_pos_nonneg; lia).
    split.
    + rewrite (two_pow_neg_Q m) by lia.
      apply Qle_shift_inv_r.
      * rewrite <- (Zlt_Qlt 0). exact Hp1.
      * unfold Qle, Qmult. simpl. nia.
    + replace (- m + 1)%Z with (- Z.pred m)%Z by lia.
      rewrite (two_pow_neg_Q (Z.pred m)) by lia.
      apply Qlt_shift_inv_l.
      * rewrite <- (Zlt_Qlt 0). exact Hp2.
      * unfold Qlt, Qmult. simpl. nia.
Qed.

(** The integer part of the logarithm is the only exponent with that
    property, so [floorLog2] depends on the value of its argument only, and
    it is monotone. *)
Lemma floorLog2_lower (r : Q) (k : Z) :
  0 < r -> 2 ^ k <= r -> (k <= Math.floorLog2 r)%Z.
Proof.
  intros Hr Hk.
  destruct (floorLog2_spec r Hr) as [_ Hhi].
  assert (H : (k < Math.floorLog2 r + 1)%Z).
  { apply (Qpower_lt_compat_l_inv 2); [ | reflexivity ].
    eapply Qle_lt_trans; eassumption. }
  lia.
Qed.

Lemma floorLog2_upper (r : Q) (k : Z) :
  0 < r -> r < 2 ^ (k + 1) -> (Math.floorLog2 r <= k)%Z.
Proof.
  intros Hr Hk.
  destruct (floorLog2_spec r Hr) as [Hlo _].
  assert (H : (Math.floorLog2 r < k + 1)%Z).
  { apply (Qpower_lt_compat_l_inv 2); [ | reflexivity ].
    eapply Qle_lt_trans; eassumption. }
  lia.
Qed.

(** [floor100log2 z = k] says [2^k <= z^100 < 2^(k+1)], that is
    [k <= 100 * log2 z < k + 1]. *)
Lemma floor100log2_spec (z : Q) :
  0 < z ->
  2 ^ Math.floor100log2 z <= z ^ 100
  /\ z ^ 100 < 2 ^ (Math.floor100log2 z + 1).
Proof.
  intro Hz. unfold Math.floor100log2.
  apply floorLog2_spec. apply Qpower_0_lt. exact Hz.
Qed.

Lemma floor100log2_unique (z : Q) (k : Z) :
  0 < z -> 2 ^ k <= z ^ 100 -> z ^ 100 < 2 ^ (k + 1) ->
  Math.floor100log2 z = k.
Proof.
  intros Hz Hlo Hhi.
  assert (Hp : 0 < z ^ 100) by (apply Qpower_0_lt; exact Hz).
  pose proof (floorLog2_lower _ _ Hp Hlo).
  pose proof (floorLog2_upper _ _ Hp Hhi).
  unfold Math.floor100log2. lia.
Qed.

(** Powers with a non-negative exponent are monotone in a positive base. *)
Lemma Qpower_base_le (a b : Q) (n : Z) :
  0 < a -> a <= b -> (0 <= n)%Z -> a ^ n <= b ^ n.
Proof.
  intros Ha Hab Hn.
  assert (Hb : b == a * (b / a)) by (field; lra).
  rewrite Hb, Qmult_power.
  rewrite <- (Qmult_1_r (a ^ n)) at 1.
  apply Qmult_le_l; [ apply Qpower_0_lt; exact Ha | ].
  apply Qpower_1_le; [ | exact Hn ].
  apply Qle_shift_div_l; lra.
Qed.

(** From zoom 200 on, [100 * log2 zoom] is at least 764. *)
Lemma floor100log2_from_200 (z : Q) :
  200 <= z -> (764 <= Math.floor100log2 z)%Z.
Proof.
  intro Hz.
  assert (Hpos : 0 < z) by lra.
  unfold Math.floor100log2.
  apply floorLog2_lower; [ apply Qpower_0_lt; exact Hpos | ].
  apply Qle_trans with (200 ^ 100).
  - rewrite (two_pow_Q 764) by lia.
    vm_compute. discriminate.
  - apply Qpower_base_le; [ reflexivity | exact Hz | lia ].
Qed.

Lemma iterationBudget_range (z : Q) :
  200 <= z -> (100 <= iterationBudget z <= 1000)%Z.
Proof.
  intro Hz. unfold iterationBudget.
  pose proof (floor100log2_from_200 z Hz). lia.
Qed.

(** [Math.floor(100 * Math.log2(400))] is 864, not 863:
    [2^864 <= 400^100 < 2^865]. *)
Lemma floor100log2_400_bounds :
  2 ^ 864 <= 400 ^ 100 /\ 400 ^ 100 < 2 ^ 865.
Proof.
  rewrite (two_pow_Q 864), (two_pow_Q 865) by lia.
  split; vm_compute; [ discriminate | reflexivity ].
Qed.

(** ** Navigation *)

Lemma last_entry_of_push {A : Type} (l : list A) (x : A) :
  nth_error (l ++ [x]) (List.length (l ++ [x]) - 1) = Some x.
Proof.
  rewrite length_app. simpl List.length.
  replace (List.length l + 1 - 1)%nat with (List.length l) by lia.
  rewrite nth_error_app2 by lia.
  replace (List.length l - List.length l)%nat with 0%nat by lia.
  reflexivity.
Qed.

(** C1 as stated fails: from the initial state the budget is 100, and after
    a zoom-in and an undo it is 764. *)
Lemma zoom_undo_budget_counterexample :
  let canvas := canvas800x600 0 0 in
  let st := initialState in
  let st' := handleUndoZoom (handleZoom (Some canvas) (clickAt canvas 400 300) st) in
  maxIterations st = 100%Z /\ maxIterations st' = 764%Z
  /\ maxIterations st' <> maxIterations st.
Proof.
  cbv zeta.
  split; [ reflexivity | ].
  split; [ vm_compute; reflexivity | vm_compute; discriminate ].
Qed.

(** C1, amended.  Outside selection mode, a zoom-in followed by an undo
    restores the stored [centerX], [centerY] and [zoom] exactly and leaves
    the history as it was; the iteration budget is not read back from the
    history but computed from the restored zoom:
    [min(1000, floor(100 * log2 zoom))]. *)
Theorem zoom_then_undo (canvas : Canvas) (e : MouseEvent) (st : State) :
  isSelectingArea st = false ->
  let st' := handleUndoZoom (handleZoom (Some canvas) e st) in
  centerX st' = centerX st /\ centerY st' = centerY st /\ zoom st' = zoom st
  /\ zoomHistory st' = zoomHistory st
  /\ maxIterations st' = iterationBudget (zoom st).
Proof.
  intros Hsel st'. subst st'.
  unfold handleZoom. rewrite Hsel.
  unfold handleUndoZoom. cbn [zoomHistory].
  rewrite last_entry_of_push.
  replace (0 <? List.length (zoomHistory st ++ _))%nat with true.
  2:{ symmetry. apply Nat.ltb_lt. rewrite length_app. simpl. lia. }
  cbn [centerX centerY zoom maxIterations zoomHistory
       prevCenterX prevCenterY prevZoom].
  rewrite removelast_last.
  repeat split; reflexivity.
Qed.

Lemma zoom_then_undo_witness :
  let canvas := canvas800x600 0 0 in
  let e := clickAt canvas 100 500 in
  let st' := handleUndoZoom (handleZoom (Some canvas) e initialState) in
  isSelectingArea initialState = false /\
  (centerX st' = 0 /\ centerY st' = 0 /\ zoom st' = 200
   /\ zoomHistory st' = []
   /\ maxIterations st' = iterationBudget 200).
Proof.
  cbv zeta.
  assert (H : isSelectingArea initialState = false) by reflexivity.
  split; [ exact H | ].
  exact (zoom_then_undo (canvas800x600 0 0)
           (clickAt (canvas800x600 0 0) 100 500) initialState H).
Defined.

(** C3 as stated fails: the budget after the zoom-in is not 863. *)
Lemma zoom_at_center_counterexample :
  let canvas := canvas800x600 0 0 in
  let st' := handleZoom (Some canvas) (clickAt canvas 400 300) initialState in
  ~ (centerX st' == 0 /\ centerY st' == 0 /\ zoom st' == 400
     /\ maxIterations st' = 863%Z).
Proof.
  cbv zeta. intros (_ & _ & _ & H).
  vm_compute in H. discriminate H.
Qed.

(** C3, amended.  From the default viewport on an 800 x 600 buffer, a
    zoom-in click at pixel (400, 300) leaves [centerX] and [centerY] at 0,
    sets the zoom to 400 and the iteration budget to
    [floor(100 * log2 400) = 864]. *)
Theorem zoom_at_center (left top : Q) :
  let canvas := canvas800x600 left top in
  let st' := handleZoom (Some canvas) (clickAt canvas 400 300) initialState in
  centerX st' == centerX initialState /\ centerY st' == centerY initialState
  /\ zoom st' == 400
  /\ maxIterations st' = 864%Z
  /\ Math.floor100log2 400 = 864%Z.
Proof.
  cbv zeta. unfold handleZoom, clickAt, canvas800x600, initialState.
  cbn [isSelectingArea centerX centerY zoom maxIterations width height
       rectLeft rectTop clientX clientY].
  split; [ | split; [ | split; [ | split ] ] ].
  - change (inject_Z 800) with 800. field.
  - change (inject_Z 600) with 600. field.
  - reflexivity.
  - vm_compute. reflexivity.
  - vm_compute. reflexivity.
Qed.

(** C10.  In selection mode the click handler returns at once: the centre,
    the zoom, the iteration budget and the history (indeed the whole state)
    are left as they were. *)
Theorem handleZoom_selecting (canvasRef : option Canvas) (e : MouseEvent)
    (st : State) :
  isSelectingArea st = true ->
  handleZoom canvasRef e st = st.
Proof.
  intro Hsel. unfold handleZoom. rewrite Hsel. reflexivity.
Qed.

Lemma handleZoom_selecting_witness :
  let canvas := canvas800x600 0 0 in
  let st := toggleSelectArea initialState in
  isSelectingArea st = true /\
  handleZoom (Some canvas) (clickAt canvas 10 20) st = st.
Proof.
  cbv zeta.
  assert (H : isSelectingArea (toggleSelectArea initialState) = true)
    by reflexivity.
  split; [ exact H | ].
  exact (handleZoom_selecting (Some (canvas800x600 0 0))
           (clickAt (canvas800x600 0 0) 10 20)
           (toggleSelectArea initialState) H).
Defined.

(** ** Region capture *)

Lemma toLong_integer (q : Q) (z : Z) : q == inject_Z z -> toLong q = z.
Proof.
  intro H. unfold toLong.
  destruct (Qle_bool 0 q).
  - rewrite (Qfloor_comp _ _ H). apply Qfloor_Z.
  - rewrite (Qceiling_comp _ _ H). apply Qceiling_Z.
Qed.

(** [getImageData] succeeds on a rectangle whose sides are non-zero
    integers. *)
Lemma getImageData_integer (sx sy sw sh : Q) (w h : Z) :
  sw == inject_Z w -> sh == inject_Z h -> w <> 0%Z -> h <> 0%Z ->
  exists img, getImageData sx sy sw sh = Some img.
Proof.
  intros Hw Hh Hw0 Hh0. unfold getImageData.
  rewrite (toLong_integer _ _ Hw), (toLong_integer _ _ Hh).
  destruct (Z.eqb_spec w 0); [ contradiction | ].
  destruct (Z.eqb_spec h 0); [ contradiction | ].
  simpl. eexists. reflexivity.
Qed.

(** ... and throws on a rectangle with a side of length zero. *)
Lemma getImageData_degenerate (sx sy sw sh : Q) :
  sw == 0 \/ sh == 0 -> getImageData sx sy sw sh = None.
Proof.
  intro H. unfold getImageData.
  destruct H as [ H | H ]; rewrite (toLong_integer _ 0 H).
  - reflexivity.
  - rewrite Z.eqb_refl, orb_true_r. reflexivity.
Qed.

Lemma selWidth_nonneg (s e : Point) : 0 <= selWidth s e.
Proof. apply Qabs_nonneg. Qed.

Lemma selHeight_nonneg (s e : Point) : 0 <= selHeight s e.
Proof. apply Qabs_nonneg. Qed.

(** C7.  When the rectangle of the gesture is the whole buffer (left and
    top 0, width and height those of the canvas), the capture is made and
    carries the live zoom and the live centre.  The buffer has positive
    sides and the viewport a positive zoom. *)
Theorem capture_full_buffer (canvas : Canvas) (st : State) (s e : Point) :
  (0 < width canvas)%Z -> (0 < height canvas)%Z -> 0 < zoom st ->
  context2d canvas = true ->
  isSelectingArea st = true ->
  selectionStart st = Some s -> selectionEnd st = Some e ->
  selLeft s e == 0 -> selTop s e == 0 ->
  selWidth s e == inject_Z (width canvas) ->
  selHeight s e == inject_Z (height canvas) ->
  exists c : Capture,
    handleMouseUp (Some canvas) true st
    = (Downloaded c, withSelection st false None None)
    /\ selectionZoom c == zoom st
    /\ selectionCenterX c == centerX st
    /\ selectionCenterY c == centerY st.
Proof.
  intros HW HH Hz Hctx Hsel Hs He Hl Ht Hw Hh.
  unfold handleMouseUp. rewrite Hsel, Hs, He, Hctx. cbn [negb].
  destruct (getImageData_integer (selLeft s e) (selTop s e)
              (selWidth s e) (selHeight s e) (width canvas) (height canvas)
              Hw Hh ltac:(lia) ltac:(lia)) as [img Himg].
  rewrite Himg.
  eexists. split; [ reflexivity | ].
  cbn [selectionZoom selectionCenterX selectionCenterY].
  assert (HWq : 0 < inject_Z (width canvas))
    by (rewrite <- (Zlt_Qlt 0); exact HW).
  assert (HHq : 0 < inject_Z (height canvas))
    by (rewrite <- (Zlt_Qlt 0); exact HH).
  split; [ | split ].
  - rewrite Hw, Hh. unfold Math.min.
    assert (E1 : inject_Z (width canvas) / inject_Z (width canvas) == 1)
      by (field; lra).
    assert (E2 : inject_Z (height canvas) / inject_Z (height canvas) == 1)
      by (field; lra).
    rewrite Q.min_l by (rewrite E1, E2; apply Qle_refl).
    rewrite E1. ring.
  - rewrite Hl, Hw. field. lra.
  - rewrite Ht, Hh. field. lra.
Qed.

Lemma capture_full_buffer_witness :
  let canvas := canvas800x600 0 0 in
  let s := {| ptX := 0; ptY := 0 |} in
  let e := {| ptX := 800; ptY := 600 |} in
  let st := withSelection initialState true (Some s) (Some e) in
  exists c : Capture,
    handleMouseUp (Some canvas) true st
    = (Downloaded c, withSelection st false None None)
    /\ selectionZoom c == zoom st
    /\ selectionCenterX c == centerX st
    /\ selectionCenterY c == centerY st.
Proof.
  cbv zeta.
  apply (capture_full_buffer (canvas800x600 0 0)
           (withSelection initialState true
              (Some {| ptX := 0; ptY := 0 |})
              (Some {| ptX := 800; ptY := 600 |}))
           {| ptX := 0; ptY := 0 |} {| ptX := 800; ptY := 600 |});
    reflexivity.
Defined.

(** C4.  For a selection rectangle of width or height [<= 0] no capture is
    produced: the handler never reaches the download and leaves the state
    alone.  When it gets as far as reading the pixels, it is
    [getImageData] that ends it, by throwing. *)
Theorem capture_degenerate (canvasRef : option Canvas) (tempCtx : bool)
    (st : State) (s e : Point) :
  selectionStart st = Some s -> selectionEnd st = Some e ->
  selWidth s e <= 0 \/ selHeight s e <= 0 ->
  (forall c : Capture,
      fst (handleMouseUp canvasRef tempCtx st) <> Downloaded c)
  /\ snd (handleMouseUp canvasRef tempCtx st) = st
  /\ (forall canvas : Canvas,
        isSelectingArea st = true -> canvasRef = Some canvas ->
        context2d canvas = true ->
        fst (handleMouseUp canvasRef tempCtx st) = Threw).
Proof.
  intros Hs He Hdeg.
  assert (Hzero : selWidth s e == 0 \/ selHeight s e == 0).
  { pose proof (selWidth_nonneg s e). pose proof (selHeight_nonneg s e).
    destruct Hdeg; [ left | right ]; apply Qle_antisym; assumption. }
  pose proof (getImageData_degenerate (selLeft s e) (selTop s e) _ _ Hzero)
    as Hthrow.
  unfold handleMouseUp. rewrite Hs, He.
  destruct (isSelectingArea st).
  - destruct canvasRef as [ canvas | ].
    + destruct (context2d canvas) eqn:Hctx; cbn [negb]; rewrite ?Hthrow;
        cbn [fst snd].
      * split; [ discriminate | split; [ reflexivity | ] ].
        intros; reflexivity.
      * split; [ discriminate | split; [ reflexivity | ] ].
        intros canvas' _ E Hc. inversion E; subst. congruence.
    + cbn [fst snd].
      split; [ discriminate | split; [ reflexivity | ] ].
      intros canvas _ E. discriminate E.
  - cbn [fst snd].
    split; [ discriminate | split; [ reflexivity | ] ].
    intros canvas E. discriminate E.
Qed.

Lemma capture_degenerate_witness :
  let canvas := canvas800x600 0 0 in
  let s := {| ptX := 10; ptY := 20 |} in
  let e := {| ptX := 300; ptY := 20 |} in
  let st := withSelection initialState true (Some s) (Some e) in
  (selWidth s e <= 0 \/ selHeight s e <= 0)
  /\ (forall c : Capture,
        fst (handleMouseUp (Some canvas) true st) <> Downloaded c)
  /\ snd (handleMouseUp (Some canvas) true st) = st
  /\ fst (handleMouseUp (Some canvas) true st) = Threw.
Proof.
  cbv zeta.
  assert (Hdeg : selWidth {| ptX := 10; ptY := 20 |} {| ptX := 300; ptY := 20 |}
                 <= 0
                 \/ selHeight {| ptX := 10; ptY := 20 |}
                      {| ptX := 300; ptY := 20 |} <= 0)
    by (right; vm_compute; discriminate).
  destruct (capture_degenerate (Some (canvas800x600 0 0)) true
              (withSelection initialState true
                 (Some {| ptX := 10; ptY := 20 |})
                 (Some {| ptX := 300; ptY := 20 |}))
              {| ptX := 10; ptY := 20 |} {| ptX := 300; ptY := 20 |}
              eq_refl eq_refl Hdeg) as (Hno & Hst & Hthrew).
  split; [ exact Hdeg | ].
  split; [ exact Hno | ].
  split; [ exact Hst | ].
  exact (Hthrew (canvas800x600 0 0) eq_refl eq_refl eq_refl).
Defined.

(** ** The mini-map *)

(** What the mini-map rendering reads from the state is [centerY] and the
    palette name: the zoom, [centerX], the iteration budget and the history
    play no part. *)
Lemma miniMap_pixel_frame (st1 st2 : State) (w h x y : Z) :
  centerY st1 = centerY st2 ->
  currentPalette st1 = currentPalette st2 ->
  pixelColor st1 w h true x y = pixelColor st2 w h true x y.
Proof.
  intros HY HP.
  unfold pixelColor, planeX, planeY, maxIterOf.
  rewrite HY, HP. reflexivity.
Qed.

(** On the mini-map the sampled abscissa is built on the constant [-1/2]
    and the fixed scale 50; the sampled ordinate is built on the live
    [centerY]. *)
Lemma miniMap_plane (st : State) (x y : Q) :
  planeX st miniMapSize miniMapSize true x == (x - 75) / 50 - (1 # 2)
  /\ planeY st miniMapSize miniMapSize true y == (y - 75) / 50 + centerY st.
Proof.
  unfold planeX, planeY, miniMapSize.
  change (inject_Z 150) with 150.
  split; field.
Qed.

(** The marker is placed as if the mini-map were centred at [(-1/2, 0)]:
    the column of the marker shows the live [centerX], but its row shows
    ordinate [2 * centerY]. *)
Lemma miniMap_marker_position (st : State) :
  let m := miniMapMarker st miniMapSize miniMapSize in
  planeX st miniMapSize miniMapSize true (viewX m) == centerX st
  /\ planeY st miniMapSize miniMapSize true (viewY m) == 2 * centerY st.
Proof.
  cbv zeta.
  unfold planeX, planeY, miniMapMarker, miniMapSize.
  cbn [viewX viewY].
  change (inject_Z 150) with 150.
  split; field.
Qed.

Lemma upto_nth (n x : Z) :
  (0 <= x < n)%Z -> nth_error (upto n) (Z.to_nat x) = Some x.
Proof.
  intro H. unfold upto.
  rewrite nth_error_map.
  rewrite (nth_error_nth' _ 0%nat) by (rewrite length_seq; lia).
  rewrite seq_nth by lia.
  simpl. f_equal. lia.
Qed.

Lemma drawMandelbrot_pixelAt (st : State) (w h : Z) (isMiniMap : bool)
    (x y : Z) :
  (0 <= x < w)%Z -> (0 <= y < h)%Z ->
  pixelAt (drawMandelbrot st w h isMiniMap) x y
  = Some (pixelColor st w h isMiniMap x y).
Proof.
  intros Hx Hy. unfold pixelAt, drawMandelbrot.
  rewrite nth_error_map, (upto_nth h y Hy). simpl.
  rewrite nth_error_map, (upto_nth w x Hx). reflexivity.
Qed.

(** C2 on the code: the mini-map image changes with the live [centerY].
    A click at pixel (400, 400) of the 800 x 600 canvas moves [centerY]
    from 0 to 1/2, and pixel (75, 0) of the mini-map changes colour. *)
Theorem miniMap_depends_on_centerY :
  let canvas := canvas800x600 0 0 in
  let st := handleZoom (Some canvas) (clickAt canvas 400 400) initialState in
  centerY initialState == 0 /\ centerY st == 1 # 2
  /\ pixelColor initialState miniMapSize miniMapSize true 75 0
     = Some (0, 7, 100)%Z
  /\ pixelColor st miniMapSize miniMapSize true 75 0
     = Some (9, 35, 129)%Z
  /\ drawMandelbrot initialState miniMapSize miniMapSize true
     <> drawMandelbrot st miniMapSize miniMapSize true.
Proof.
  cbv zeta.
  set (st := handleZoom _ _ initialState).
  assert (H0 : pixelColor initialState miniMapSize miniMapSize true 75 0
               = Some (0, 7, 100)%Z) by (vm_compute; reflexivity).
  assert (H1 : pixelColor st miniMapSize miniMapSize true 75 0
               = Some (9, 35, 129)%Z) by (vm_compute; reflexivity).
  split; [ reflexivity | ].
  split; [ vm_compute; reflexivity | ].
  split; [ exact H0 | ].
  split; [ exact H1 | ].
  intro E.
  apply (f_equal (fun img => pixelAt img 75 0)) in E.
  rewrite !drawMandelbrot_pixelAt in E by (unfold miniMapSize; lia).
  rewrite H0, H1 in E. discriminate E.
Qed.

(** * Further properties of the engine *)

(** ** The escape loop and its budget *)

(** X2.  The count never leaves [[0, maxIter]]; for a budget that is not
    positive the loop does not run and the count is 0. *)
Theorem evaluate_bounds (zx zy : Q) (maxIter : Z) :
  (0 <= evaluate zx zy maxIter <= Z.max 0 maxIter)%Z.
Proof.
  unfold evaluate.
  pose proof (escapeLoop_range zx zy (Z.to_nat maxIter) zx zy 0). lia.
Qed.

Lemma escapeLoop_truncate (zx zy : Q) (n m : nat) (cX cY : Q) (iteration : Z) :
  (n <= m)%nat ->
  escapeLoop zx zy n cX cY iteration
  = Z.min (iteration + Z.of_nat n) (escapeLoop zx zy m cX cY iteration).
Proof.
  revert m cX cY iteration.
  induction n as [ | n IH ]; intros m cX cY iteration Hnm.
  - pose proof (escapeLoop_range zx zy m cX cY iteration). simpl. lia.
  - destruct m as [ | m ]; [ lia | ].
    cbn [escapeLoop].
    destruct (Qgtb _ 4).
    + lia.
    + rewrite (IH m) by lia. lia.
Qed.

(** X3.  A larger budget never changes the count of a point that escaped:
    rendering with budget [N] is the rendering with a budget [M >= N] cut
    off at [N]. *)
Theorem evaluate_budget_truncates (zx zy : Q) (N M : Z) :
  (0 <= N <= M)%Z ->
  evaluate zx zy N = Z.min N (evaluate zx zy M).
Proof.
  intro H. unfold evaluate.
  rewrite (escapeLoop_truncate zx zy (Z.to_nat N) (Z.to_nat M)) by lia.
  lia.
Qed.

Lemma evaluate_budget_truncates_witness :
  (0 <= 2 <= 50)%Z
  /\ evaluate (-1 # 2) (-1) 2 = Z.min 2 (evaluate (-1 # 2) (-1) 50).
Proof.
  assert (H : (0 <= 2 <= 50)%Z) by lia.
  split; [ exact H | exact (evaluate_budget_truncates (-1 # 2) (-1) 2 50 H) ].
Defined.

(** ** The colour mapper on and off the unit interval *)

Lemma channelsInb_spec (lo hi : Z) (c : Color) :
  channelsInb lo hi c = true -> channelsIn lo hi c.
Proof.
  destruct c as [[r g] b]. unfold channelsInb, channelsIn.
  rewrite !andb_true_iff, !Z.leb_le. tauto.
Qed.

(** A blend of two channels of [[lo, hi]] with a fraction of [[0, 1]],
    rounded, is in [[lo, hi]]. *)
Lemma blend_range (a b lo hi : Z) (f : Q) :
  (lo <= a <= hi)%Z -> (lo <= b <= hi)%Z -> 0 <= f -> f <= 1 ->
  (lo <= Math.round (inject_Z a * (1 - f) + inject_Z b * f) <= hi)%Z.
Proof.
  intros [Ha1 Ha2] [Hb1 Hb2] Hf0 Hf1.
  rewrite Zle_Qle in Ha1, Ha2, Hb1, Hb2.
  set (v := inject_Z a * (1 - f) + inject_Z b * f).
  assert (Hlo : inject_Z lo <= v) by (unfold v; nra).
  assert (Hhi : v <= inject_Z hi) by (unfold v; nra).
  unfold Math.round.
  pose proof (Qfloor_le (v + (1 # 2))) as Hfl.
  pose proof (Qlt_floor (v + (1 # 2))) as Hfu.
  rewrite inject_Z_plus in Hfu. change (inject_Z 1) with 1 in Hfu.
  split.
  - assert (H : (lo < Qfloor (v + (1 # 2)) + 1)%Z).
    { rewrite Zlt_Qlt, inject_Z_plus. change (inject_Z 1) with 1. lra. }
    lia.
  - assert (H : (Qfloor (v + (1 # 2)) < hi + 1)%Z).
    { rewrite Zlt_Qlt, inject_Z_plus. change (inject_Z 1) with 1. lra. }
    lia.
Qed.

Lemma index_in_range (palette : ColorPalette) (i : Z) :
  (0 <= i < Z.of_nat (List.length palette))%Z ->
  exists c, index palette i = Some c /\ In c palette.
Proof.
  intro Hi. unfold index.
  destruct (Z.ltb_spec i 0) as [ H | _ ]; [ lia | ].
  destruct (nth_error palette (Z.to_nat i)) as [ c | ] eqn:E.
  - exists c. split; [ reflexivity | eapply nth_error_In; exact E ].
  - apply nth_error_None in E. lia.
Qed.

(** On [[0, 1]] both palette reads are inside the palette and the result
    stays within the channel range of the palette. *)
Lemma interpolate_in_range (palette : ColorPalette) (t : Q) (lo hi : Z) :
  palette <> [] ->
  Forall (channelsIn lo hi) palette ->
  0 <= t -> t <= 1 ->
  exists c, interpolate palette t = Some c /\ channelsIn lo hi c.
Proof.
  intros Hne Hall Ht0 Ht1.
  unfold interpolate.
  set (len := Z.of_nat (List.length palette)).
  assert (Hlen : (1 <= len)%Z).
  { unfold len. destruct palette; [ contradiction | simpl List.length; lia ]. }
  set (q := t * inject_Z (len - 1)).
  assert (Hl1 : 0 <= inject_Z (len - 1))
    by (change 0 with (inject_Z 0); rewrite <- Zle_Qle; lia).
  assert (Hq0 : 0 <= q) by (unfold q; nra).
  assert (Hq1 : q <= inject_Z (len - 1)) by (unfold q; nra).
  pose proof (Qfloor_le q) as Hfl.
  pose proof (Qlt_floor q) as Hfu.
  rewrite inject_Z_plus in Hfu. change (inject_Z 1) with 1 in Hfu.
  unfold Math.floor.
  set (i := Qfloor q) in *.
  assert (Hi0 : (0 <= i)%Z).
  { assert (H : (0 < i + 1)%Z).
    { rewrite Zlt_Qlt, inject_Z_plus. change (inject_Z 1) with 1.
      change (inject_Z 0) with 0. lra. }
    lia. }
  assert (Hi1 : (i <= len - 1)%Z).
  { rewrite Zle_Qle. lra. }
  destruct (index_in_range palette i ltac:(fold len; lia)) as (c1 & E1 & In1).
  destruct (index_in_range palette (Z.min (i + 1) (len - 1))
              ltac:(fold len; lia)) as (c2 & E2 & In2).
  rewrite E1, E2.
  rewrite Forall_forall in Hall.
  pose proof (Hall c1 In1) as R1. pose proof (Hall c2 In2) as R2.
  destruct c1 as [[r1 g1] b1], c2 as [[r2 g2] b2].
  destruct R1 as (Rr1 & Rg1 & Rb1), R2 as (Rr2 & Rg2 & Rb2).
  eexists. split; [ reflexivity | ].
  assert (Hf0 : 0 <= q - inject_Z i) by lra.
  assert (Hf1 : q - inject_Z i <= 1) by lra.
  unfold channelsIn.
  split; [ | split ]; apply blend_range; assumption.
Qed.

Lemma registered_palette_channels (name : string) (palette : ColorPalette) :
  colorPalettes name = Some palette ->
  palette <> [] /\ Forall (channelsIn 0 255) palette.
Proof.
  intro Hreg.
  pose proof (colorPalettes_cases name palette Hreg) as Hcases.
  simpl in Hcases.
  repeat (destruct Hcases as [ <- | Hcases ];
          [ split;
            [ discriminate
            | apply Forall_forall; intros c Hc; apply channelsInb_spec;
              revert c Hc; apply forallb_forall; reflexivity ]
          | ]).
  contradiction.
Qed.

(** X4.  For a registered palette and a ratio in [[0, 1]] the mapper
    returns a colour (no read past either end of the palette) and each of
    its channels is an integer of [[0, 255]]. *)
Theorem colorPalette_in_gamut (name : string) (palette : ColorPalette) (t : Q) :
  colorPalettes name = Some palette ->
  0 <= t -> t <= 1 ->
  exists c, colorPalette name t = Some c /\ channelsIn 0 255 c.
Proof.
  intros Hreg Ht0 Ht1.
  destruct (registered_palette_channels name palette Hreg) as [Hne Hall].
  unfold colorPalette. rewrite Hreg.
  apply interpolate_in_range; assumption.
Qed.

Lemma colorPalette_in_gamut_witness :
  colorPalettes "warm" = Some palette_warm /\ 0 <= 1 # 3 /\ 1 # 3 <= 1
  /\ exists c, colorPalette "warm" (1 # 3) = Some c /\ channelsIn 0 255 c.
Proof.
  assert (H : colorPalettes "warm" = Some palette_warm) by reflexivity.
  assert (H0 : 0 <= 1 # 3) by (vm_compute; discriminate).
  assert (H1 : 1 # 3 <= 1) by (vm_compute; discriminate).
  split; [ exact H | split; [ exact H0 | split; [ exact H1 | ] ] ].
  exact (colorPalette_in_gamut "warm" palette_warm (1 # 3) H H0 H1).
Defined.

(** X5.  A negative ratio makes the first palette read miss
    ([palette[-1]] is [undefined]) as soon as the palette has two entries:
    the mapper throws instead of returning a colour. *)
Theorem interpolate_negative_throws (palette : ColorPalette) (t : Q) :
  (2 <= List.length palette)%nat -> t < 0 ->
  interpolate palette t = None.
Proof.
  intros Hlen Ht. unfold interpolate.
  set (len := Z.of_nat (List.length palette)).
  assert (Hl : 1 <= inject_Z (len - 1)).
  { change 1 with (inject_Z 1). rewrite <- Zle_Qle. unfold len. lia. }
  pose proof (Qfloor_le (t * inject_Z (len - 1))) as Hfl.
  assert (Hneg : (Math.floor (t * inject_Z (len - 1)) < 0)%Z).
  { unfold Math.floor. rewrite Zlt_Qlt. change (inject_Z 0) with 0. nra. }
  unfold index at 1.
  destruct (Z.ltb_spec (Math.floor (t * inject_Z (len - 1))) 0); [ | lia ].
  reflexivity.
Qed.

Lemma interpolate_negative_throws_witness :
  (2 <= List.length palette_ocean)%nat /\ - (1 # 10) < 0
  /\ interpolate palette_ocean (- (1 # 10)) = None.
Proof.
  assert (H : (2 <= List.length palette_ocean)%nat) by (simpl; lia).
  assert (Ht : - (1 # 10) < 0) by reflexivity.
  split; [ exact H | split; [ exact Ht | ] ].
  exact (interpolate_negative_throws palette_ocean (- (1 # 10)) H Ht).
Defined.

(** ** The renderer *)

(** The ratio handed to the colour mapper is in [[0, 1]]. *)
Lemma ratio_in_unit (iteration maxIter : Z) :
  (0 <= iteration <= Z.max 0 maxIter)%Z ->
  0 <= inject_Z iteration / inject_Z maxIter
  /\ inject_Z iteration / inject_Z maxIter <= 1.
Proof.
  intro H.
  destruct (Z_lt_le_dec 0 maxIter) as [ Hpos | Hneg ].
  - assert (Hm : 0 < inject_Z maxIter)
      by (change 0 with (inject_Z 0); rewrite <- Zlt_Qlt; exact Hpos).
    assert (H0 : 0 <= inject_Z iteration)
      by (change 0 with (inject_Z 0); rewrite <- Zle_Qle; lia).
    assert (H1 : inject_Z iteration <= inject_Z maxIter)
      by (rewrite <- Zle_Qle; lia).
    split.
    + apply Qle_shift_div_l; [ exact Hm | lra ].
    + apply Qle_shift_div_r; [ exact Hm | lra ].
  - assert (E : iteration = 0%Z) by lia. subst iteration.
    assert (E0 : inject_Z 0 / inject_Z maxIter == 0)
      by (unfold Qdiv; change (inject_Z 0) with 0; ring).
    rewrite E0. split; [ apply Qle_refl | discriminate ].
Qed.

Lemma pixelColor_total (st : State) (palette : ColorPalette)
    (w h : Z) (isMiniMap : bool) (x y : Z) :
  colorPalettes (currentPalette st) = Some palette ->
  exists c, pixelColor st w h isMiniMap x y = Some c /\ channelsIn 0 255 c.
Proof.
  intro Hreg. unfold pixelColor.
  set (zx := planeX st w h isMiniMap (inject_Z x)).
  set (zy := planeY st w h isMiniMap (inject_Z y)).
  set (maxIter := maxIterOf st isMiniMap).
  destruct (evaluate zx zy maxIter =? maxIter)%Z.
  - exists (0, 0, 0)%Z. split; [ reflexivity | ]. simpl. lia.
  - destruct (ratio_in_unit _ _ (evaluate_bounds zx zy maxIter)) as [H0 H1].
    exact (colorPalette_in_gamut _ palette _ Hreg H0 H1).
Qed.

Lemma upto_length (n : Z) : List.length (upto n) = Z.to_nat n.
Proof. unfold upto. rewrite length_map, length_seq. reflexivity. Qed.

Lemma miniMap_pixel_frame_witness :
  let st :=
    {| centerX := 3; centerY := 0; zoom := 1600; maxIterations := 1000;
       zoomHistory := [ {| prevCenterX := 0; prevCenterY := 0;
                           prevZoom := 800 |} ];
       isMiniMapVisible := true; currentPalette := "initial";
       isSelectingArea := false; selectionStart := None;
       selectionEnd := None |} in
  pixelColor st miniMapSize miniMapSize true 10 10
  = pixelColor initialState miniMapSize miniMapSize true 10 10.
Proof.
  cbv zeta.
  apply miniMap_pixel_frame; reflexivity.
Defined.

(** X8.  The mini-map image as a whole reads [centerY] and the palette
    name only: the live [centerX], zoom, budget, history and selection
    cells play no part in it. *)
Theorem miniMap_image_frame (st1 st2 : State) (w h : Z) :
  centerY st1 = centerY st2 ->
  currentPalette st1 = currentPalette st2 ->
  drawMandelbrot st1 w h true = drawMandelbrot st2 w h true.
Proof.
  intros HY HP. unfold drawMandelbrot.
  apply map_ext. intro y. apply map_ext. intro x.
  apply miniMap_pixel_frame; assumption.
Qed.

Lemma miniMap_image_frame_witness :
  let st :=
    {| centerX := 3; centerY := 0; zoom := 1600; maxIterations := 1000;
       zoomHistory := [ {| prevCenterX := 0; prevCenterY := 0;
                           prevZoom := 800 |} ];
       isMiniMapVisible := true; currentPalette := "initial";
       isSelectingArea := true; selectionStart := None;
       selectionEnd := None |} in
  drawMandelbrot st miniMapSize miniMapSize true
  = drawMandelbrot initialState miniMapSize miniMapSize true.
Proof.
  cbv zeta.
  apply miniMap_image_frame; reflexivity.
Defined.

(** ** The iteration budget as a function of the zoom *)

Lemma floor100log2_monotone (z1 z2 : Q) :
  0 < z1 -> z1 <= z2 -> (Math.floor100log2 z1 <= Math.floor100log2 z2)%Z.
Proof.
  intros H1 H12.
  destruct (floor100log2_spec z1 H1) as [Hlo _].
  unfold Math.floor100log2 at 2.
  apply floorLog2_lower.
  - apply Qpower_0_lt. lra.
  - eapply Qle_trans; [ exact Hlo | ].
    apply Qpower_base_le; [ exact H1 | exact H12 | lia ].
Qed.

(** The budget depends on the value of the zoom, not on how the rational
    is written. *)
Lemma iterationBudget_compat (z1 z2 : Q) :
  0 < z1 -> z1 == z2 -> iterationBudget z1 = iterationBudget z2.
Proof.
  intros H1 E.
  assert (H2 : 0 < z2) by (rewrite <- E; exact H1).
  pose proof (floor100log2_monotone z1 z2 H1 ltac:(rewrite E; apply Qle_refl)).
  pose proof (floor100log2_monotone z2 z1 H2 ltac:(rewrite E; apply Qle_refl)).
  unfold iterationBudget. lia.
Qed.

(** X10.  The budget never decreases when the zoom grows. *)
Theorem iterationBudget_monotone (z1 z2 : Q) :
  0 < z1 -> z1 <= z2 -> (iterationBudget z1 <= iterationBudget z2)%Z.
Proof.
  intros H1 H12. unfold iterationBudget.
  pose proof (floor100log2_monotone z1 z2 H1 H12). lia.
Qed.

Lemma iterationBudget_monotone_witness :
  0 < 400 /\ 400 <= 800 /\ (iterationBudget 400 <= iterationBudget 800)%Z.
Proof.
  assert (H1 : 0 < 400) by reflexivity.
  assert (H2 : 400 <= 800) by (vm_compute; discriminate).
  split; [ exact H1 | split; [ exact H2 | ] ].
  exact (iterationBudget_monotone 400 800 H1 H2).
Defined.

Lemma two_pow_1000 : 2 ^ 1000 == 1024 ^ 100.
Proof.
  rewrite (two_pow_Q 1000) by lia.
  change 1024 with (inject_Z 1024).
  rewrite <- (Zpower_Qpower 1024 100) by lia.
  apply inject_Z_injective. vm_compute. reflexivity.
Qed.

(** ** Navigation sequences *)

Lemma run_app (gs1 gs2 : list Gesture) (st : State) :
  run (gs1 ++ gs2) st = run gs2 (run gs1 st).
Proof. unfold run. apply fold_left_app. Qed.

(** What an undo does to a state whose history ends with [x]. *)
Lemma handleUndoZoom_push (st : State) (l : list ZoomEntry) (x : ZoomEntry) :
  zoomHistory st = l ++ [x] ->
  handleUndoZoom st
  = {| centerX := prevCenterX x; centerY := prevCenterY x;
       zoom := prevZoom x;
       maxIterations := iterationBudget (prevZoom x);
       zoomHistory := l;
       isMiniMapVisible := isMiniMapVisible st;
       currentPalette := currentPalette st;
       isSelectingArea := isSelectingArea st;
       selectionStart := selectionStart st;
       selectionEnd := selectionEnd st |}.
Proof.
  intro Hh. unfold handleUndoZoom. rewrite Hh.
  rewrite last_entry_of_push, removelast_last.
  replace (0 <? List.length (l ++ [x]))%nat with true.
  2:{ symmetry. apply Nat.ltb_lt. rewrite length_app. simpl. lia. }
  reflexivity.
Qed.

Lemma handleUndoZoom_empty (st : State) :
  zoomHistory st = [] -> handleUndoZoom st = st.
Proof.
  intro Hh. unfold handleUndoZoom. rewrite Hh. reflexivity.
Qed.

Lemma step_sameShell (st : State) (g : Gesture) : sameShell (step st g) st.
Proof.
  unfold sameShell.
  destruct g as [ canvasRef e | | ]; simpl.
  - unfold handleZoom.
    destruct (isSelectingArea st) eqn:E; [ tauto | ].
    destruct canvasRef; simpl; rewrite ?E; tauto.
  - unfold handleUndoZoom.
    destruct (0 <? _)%nat; [ | tauto ].
    destruct (nth_error _ _); simpl; tauto.
  - simpl. tauto.
Qed.

Lemma run_sameShell (gs : list Gesture) (st : State) :
  sameShell (run gs st) st.
Proof.
  revert st. induction gs as [ | g gs IH ]; intro st.
  - unfold sameShell. simpl. tauto.
  - change (run (g :: gs) st) with (run gs (step st g)).
    pose proof (IH (step st g)) as H1.
    pose proof (step_sameShell st g) as H2.
    unfold sameShell in *.
    repeat split; etransitivity; (apply H1 || apply H2).
Qed.

(** X12.  Zoom-in, undo and reset never touch the palette choice, the
    mini-map switch or the selection cells; so a reset after any navigation
    gives the state a reset at the start would have given: the home view
    (0, 0, 200, 100) with an empty history. *)
Theorem reset_absorbs_navigation (gs : list Gesture) (st : State) :
  sameShell (run gs st) st
  /\ handleResetView (run gs st) = handleResetView st
  /\ centerX (handleResetView (run gs st)) = 0
  /\ centerY (handleResetView (run gs st)) = 0
  /\ zoom (handleResetView (run gs st)) = 200
  /\ maxIterations (handleResetView (run gs st)) = 100%Z
  /\ zoomHistory (handleResetView (run gs st)) = [].
Proof.
  pose proof (run_sameShell gs st) as Hs.
  split; [ exact Hs | ].
  split; [ | repeat split ].
  destruct Hs as (H1 & H2 & H3 & H4 & H5).
  unfold handleResetView. rewrite H1, H2, H3, H4, H5. reflexivity.
Qed.

Lemma handleZoom_effective (canvas : Canvas) (e : MouseEvent) (st : State) :
  isSelectingArea st = false ->
  let st' := handleZoom (Some canvas) e st in
  isSelectingArea st' = false
  /\ zoomHistory st'
     = zoomHistory st
         ++ [ {| prevCenterX := centerX st; prevCenterY := centerY st;
                 prevZoom := zoom st |} ].
Proof.
  intro Hsel. cbv zeta. unfold handleZoom. rewrite Hsel.
  simpl. split; reflexivity.
Qed.

Lemma zoomIns_then_undos (clicks : list (Canvas * MouseEvent)) (st : State) :
  isSelectingArea st = false ->
  sameView (run (zoomIns clicks ++ repeat Undo (List.length clicks)) st) st.
Proof.
  revert st.
  induction clicks as [ | [canvas e] clicks IH ]; intros st Hsel.
  - simpl. unfold sameView. tauto.
  - change (repeat Undo (List.length ((canvas, e) :: clicks)))
      with (Undo :: repeat Undo (List.length clicks)).
    rewrite repeat_cons.
    change (zoomIns ((canvas, e) :: clicks))
      with (ZoomIn (Some canvas) e :: zoomIns clicks).
    rewrite <- app_comm_cons, app_assoc.
    change (run (ZoomIn (Some canvas) e :: ?l) st)
      with (run l (handleZoom (Some canvas) e st)).
    rewrite run_app.
    destruct (handleZoom_effective canvas e st Hsel) as [Hsel1 Hh1].
    specialize (IH _ Hsel1).
    destruct IH as (_ & _ & _ & Hh).
    rewrite Hh1 in Hh.
    change (run [Undo] ?s) with (handleUndoZoom s).
    rewrite (handleUndoZoom_push _ _ _ Hh).
    unfold sameView. simpl. tauto.
Qed.

(** X13.  Undo is a stack: [n] zoom-ins followed by [n] undos bring back
    the exact centre, zoom and history the sequence started from, whatever
    the clicks were. *)
Theorem zoomIns_undone (clicks : list (Canvas * MouseEvent)) (st : State) :
  isSelectingArea st = false ->
  let st' := run (zoomIns clicks ++ repeat Undo (List.length clicks)) st in
  centerX st' = centerX st /\ centerY st' = centerY st
  /\ zoom st' = zoom st /\ zoomHistory st' = zoomHistory st.
Proof.
  intro Hsel. exact (zoomIns_then_undos clicks st Hsel).
Qed.

Lemma zoomIns_undone_witness :
  let canvas := canvas800x600 0 0 in
  let clicks := [ (canvas, clickAt canvas 100 500);
                  (canvas, clickAt canvas 640 20);
                  (canvas, clickAt canvas 7 7) ] in
  let st' := run (zoomIns clicks ++ repeat Undo (List.length clicks))
                 initialState in
  centerX st' = 0 /\ centerY st' = 0 /\ zoom st' = 200
  /\ zoomHistory st' = [].
Proof.
  cbv zeta.
  apply (zoomIns_undone
           [ (canvas800x600 0 0, clickAt (canvas800x600 0 0) 100 500);
             (canvas800x600 0 0, clickAt (canvas800x600 0 0) 640 20);
             (canvas800x600 0 0, clickAt (canvas800x600 0 0) 7 7) ]
           initialState).
  reflexivity.
Defined.

(** ** Depth of the reachable views *)

Lemma scale_at_depth_succ (z : Q) (n : nat) :
  z == inject_Z (200 * 2 ^ Z.of_nat n) ->
  z * 2 == inject_Z (200 * 2 ^ Z.of_nat (S n)).
Proof.
  intro Hz. rewrite Hz, Nat2Z.inj_succ, Z.pow_succ_r by lia.
  change 2 with (inject_Z 2) at 1. rewrite <- inject_Z_mult.
  apply inject_Z_injective. ring.
Qed.

Lemma depthInvariant_initial : depthInvariant initialState.
Proof.
  unfold depthInvariant. simpl.
  split; [ reflexivity | ].
  split; [ intros [ | i ] entry H; discriminate H | ].
  split; [ intros entry H; discriminate H | ].
  split; [ intros _; split; reflexivity | ].
  right. split; reflexivity.
Qed.

Lemma depthInvariant_step (st : State) (g : Gesture) :
  depthInvariant st -> depthInvariant (step st g).
Proof.
  intro Hinv. pose proof Hinv as (Hz & He & H0 & Hc & Hb).
  destruct g as [ canvasRef e | | ]; simpl.
  - (* zoom-in *)
    unfold handleZoom.
    destruct (isSelectingArea st); [ exact Hinv | ].
    destruct canvasRef as [ canvas | ]; [ | exact Hinv ].
    unfold depthInvariant.
    cbn [zoom zoomHistory maxIterations centerX centerY].
    set (cur := {| prevCenterX := centerX st; prevCenterY := centerY st;
                   prevZoom := zoom st |}).
    split.
    { rewrite length_app. simpl List.length.
      replace (List.length (zoomHistory st) + 1)%nat
        with (S (List.length (zoomHistory st))) by lia.
      apply scale_at_depth_succ, Hz. }
    split.
    { intros i entry Hi.
      destruct (Nat.lt_ge_cases i (List.length (zoomHistory st))) as [ Hlt | Hge ].
      - rewrite nth_error_app1 in Hi by exact Hlt. exact (He i entry Hi).
      - rewrite nth_error_app2 in Hi by exact Hge.
        destruct (i - List.length (zoomHistory st))%nat as [ | k ] eqn:Ek.
        + simpl in Hi. inversion Hi; subst entry. simpl.
          replace i with (List.length (zoomHistory st)) by lia. exact Hz.
        + simpl in Hi. destruct k; discriminate Hi. }
    split.
    { intros entry Hi.
      destruct (zoomHistory st) as [ | x l ] eqn:Eh.
      - simpl in Hi. inversion Hi; subst entry. simpl.
        apply Hc. reflexivity.
      - simpl in Hi. apply H0. simpl. exact Hi. }
    split.
    { intro Habs. apply app_eq_nil in Habs. destruct Habs as [_ Habs].
      discriminate Habs. }
    left. reflexivity.
  - (* undo *)
    destruct (zoomHistory st) as [ | x0 l0 ] eqn:Eh.
    { rewrite (handleUndoZoom_empty st Eh). exact Hinv. }
    assert (Hne : x0 :: l0 <> []) by discriminate.
    destruct (exists_last Hne) as (l & x & Hsplit).
    rewrite <- Eh in Hsplit.
    rewrite (handleUndoZoom_push st l x Hsplit).
    rewrite <- Eh in He, H0. rewrite Hsplit in He, H0.
    assert (Hx : nth_error (l ++ [x]) (List.length l) = Some x).
    { rewrite nth_error_app2 by lia.
      replace (List.length l - List.length l)%nat with 0%nat by lia.
      reflexivity. }
    unfold depthInvariant.
    cbn [zoom zoomHistory maxIterations centerX centerY].
    split; [ exact (He _ _ Hx) | ].
    split.
    { intros i entry Hi. apply He.
      rewrite nth_error_app1; [ exact Hi | ].
      apply nth_error_Some. rewrite Hi. discriminate. }
    split.
    { intros entry Hi. apply H0.
      rewrite nth_error_app1; [ exact Hi | ].
      apply nth_error_Some. rewrite Hi. discriminate. }
    split.
    { intro El. subst l. apply H0. reflexivity. }
    left. reflexivity.
  - (* reset *)
    unfold handleResetView, depthInvariant. simpl.
    split; [ reflexivity | ].
    split; [ intros [ | i ] entry H; discriminate H | ].
    split; [ intros entry H; discriminate H | ].
    split; [ intros _; split; reflexivity | ].
    right. split; reflexivity.
Qed.

Lemma depthInvariant_run (gs : list Gesture) (st : State) :
  depthInvariant st -> depthInvariant (run gs st).
Proof.
  revert st. unfold run.
  induction gs as [ | g gs IH ]; intros st Hinv; simpl.
  - exact Hinv.
  - apply IH, depthInvariant_step, Hinv.
Qed.

Lemma undoTimes_all (l : list ZoomEntry) :
  forall st, zoomHistory st = l -> l <> [] ->
  exists entry0,
    nth_error l 0 = Some entry0
    /\ centerX (undoTimes (List.length l) st) = prevCenterX entry0
    /\ centerY (undoTimes (List.length l) st) = prevCenterY entry0
    /\ zoom (undoTimes (List.length l) st) = prevZoom entry0
    /\ zoomHistory (undoTimes (List.length l) st) = []
    /\ maxIterations (undoTimes (List.length l) st)
       = iterationBudget (prevZoom entry0).
Proof.
  induction l as [ | x l IH ] using rev_ind; intros st Hh Hne.
  - contradiction.
  - rewrite length_app. simpl List.length.
    replace (List.length l + 1)%nat with (S (List.length l)) by lia.
    cbn [undoTimes].
    rewrite (handleUndoZoom_push st l x Hh).
    destruct l as [ | y l' ].
    + exists x. simpl. repeat split; reflexivity.
    + set (st1 := {| centerX := prevCenterX x |}).
      destruct (IH st1 eq_refl ltac:(discriminate)) as (entry0 & Hn & Hrest).
      exists entry0. split; [ | exact Hrest ].
      simpl in Hn. simpl. exact Hn.
Qed.

(** X15.  From a reachable state with a non-empty history, undoing as
    many times as the history is long leads back to the home view: centre
    (0, 0), zoom 200, empty history.  The budget is then 764
    ([floor(100 * log2 200)]), not the 100 of the initial state or of a
    reset. *)
Theorem undo_all_reaches_home (gs : list Gesture) :
  let st := run gs initialState in
  zoomHistory st <> [] ->
  let home := undoTimes (List.length (zoomHistory st)) st in
  centerX home = 0 /\ centerY home = 0 /\ zoom home == 200
  /\ zoomHistory home = [] /\ maxIterations home = 764%Z.
Proof.
  cbv zeta. intro Hne.
  destruct (depthInvariant_run gs initialState depthInvariant_initial)
    as (_ & He & H0 & _ & _).
  destruct (undoTimes_all _ _ eq_refl Hne)
    as (entry0 & Hn & Hx & Hy & Hz & Hh & Hb).
  destruct (H0 _ Hn) as [Hx0 Hy0].
  pose proof (He _ _ Hn) as Hz0.
  change (inject_Z (200 * 2 ^ Z.of_nat 0)) with 200 in Hz0.
  rewrite Hx, Hy, Hz, Hb.
  split; [ exact Hx0 | ].
  split; [ exact Hy0 | ].
  split; [ exact Hz0 | ].
  split; [ exact Hh | ].
  rewrite (iterationBudget_compat (prevZoom entry0) 200).
  - vm_compute. reflexivity.
  - rewrite Hz0. reflexivity.
  - exact Hz0.
Qed.

Lemma undo_all_reaches_home_witness :
  let canvas := canvas800x600 0 0 in
  let gs := [ ZoomIn (Some canvas) (clickAt canvas 100 500);
              ZoomIn (Some canvas) (clickAt canvas 640 20) ] in
  let st := run gs initialState in
  let home := undoTimes (List.length (zoomHistory st)) st in
  centerX home = 0 /\ centerY home = 0 /\ zoom home == 200
  /\ zoomHistory home = [] /\ maxIterations home = 764%Z.
Proof.
  cbv zeta.
  apply (undo_all_reaches_home
           [ ZoomIn (Some (canvas800x600 0 0))
               (clickAt (canvas800x600 0 0) 100 500);
             ZoomIn (Some (canvas800x600 0 0))
               (clickAt (canvas800x600 0 0) 640 20) ]).
  discriminate.
Defined.

(** ** The capture gesture *)

Lemma toLong_nonneg_nonzero (q : Q) : 0 <= q -> toLong q <> 0%Z -> 1 <= q.
Proof.
  intros Hq Hnz. unfold toLong in Hnz.
  assert (E : Qle_bool 0 q = true) by (apply Qle_bool_iff; exact Hq).
  rewrite E in Hnz.
  pose proof (Qfloor_le q) as Hfl.
  assert (H0 : (0 <= Qfloor q)%Z).
  { change 0%Z with (Qfloor 0). apply Qfloor_resp_le. exact Hq. }
  assert (H1 : (1 <= Qfloor q)%Z) by lia.
  rewrite Zle_Qle in H1. change (inject_Z 1) with 1 in H1. lra.
Qed.

Lemma toLong_ge_1 (q : Q) : 1 <= q -> toLong q <> 0%Z.
Proof.
  intro Hq. unfold toLong.
  assert (E : Qle_bool 0 q = true) by (apply Qle_bool_iff; lra).
  rewrite E.
  assert (H1 : (Qfloor 1 <= Qfloor q)%Z) by (apply Qfloor_resp_le; exact Hq).
  change (Qfloor 1) with 1%Z in H1. lia.
Qed.

Lemma getImageData_some (sx sy sw sh : Q) (img : ImageData) :
  getImageData sx sy sw sh = Some img ->
  toLong sw <> 0%Z /\ toLong sh <> 0%Z
  /\ imgWidth img = toLong sw /\ imgHeight img = toLong sh.
Proof.
  unfold getImageData.
  destruct (Z.eqb_spec (toLong sw) 0) as [ | Hw ]; [ discriminate | ].
  destruct (Z.eqb_spec (toLong sh) 0) as [ | Hh ]; [ discriminate | ].
  simpl. intro H. inversion H; subst. simpl. tauto.
Qed.

(** What a download tells about the call that made it. *)
Lemma handleMouseUp_downloaded (canvasRef : option Canvas) (tempCtx : bool)
    (st st' : State) (c : Capture) :
  handleMouseUp canvasRef tempCtx st = (Downloaded c, st') ->
  exists canvas s e,
    canvasRef = Some canvas /\ isSelectingArea st = true
    /\ selectionStart st = Some s /\ selectionEnd st = Some e
    /\ getImageData (selLeft s e) (selTop s e) (selWidth s e) (selHeight s e)
       = Some (image c)
    /\ selectionCenterX c
       = centerX st
         + ((selLeft s e + selWidth s e / 2 - inject_Z (width canvas) / 2)
            / zoom st)
           * (inject_Z (width canvas) / inject_Z (height canvas))
    /\ selectionCenterY c
       = centerY st
         + (selTop s e + selHeight s e / 2 - inject_Z (height canvas) / 2)
           / zoom st
    /\ selectionZoom c
       = zoom st * Math.min (inject_Z (width canvas) / selWidth s e)
                            (inject_Z (height canvas) / selHeight s e)
    /\ st' = withSelection st false None None.
Proof.
  unfold handleMouseUp.
  destruct (isSelectingArea st); [ | discriminate ].
  destruct (selectionStart st) as [ s | ]; [ | discriminate ].
  destruct (selectionEnd st) as [ e | ]; [ | discriminate ].
  destruct canvasRef as [ canvas | ]; [ | discriminate ].
  destruct (context2d canvas); cbn [negb]; [ | discriminate ].
  destruct (getImageData _ _ _ _) as [ img | ] eqn:Eimg; [ | discriminate ].
  destruct tempCtx; cbn [negb]; [ | discriminate ].
  intro H. inversion H; subst. simpl.
  exists canvas, s, e. repeat split; reflexivity || exact Eimg.
Qed.

(** X16.  Releasing the mouse never navigates: whatever the outcome, the
    centre, zoom, budget, history, palette and mini-map switch are
    unchanged.  The selection cells change only when a capture was
    downloaded, and then selection mode is left with both corners
    cleared. *)
Theorem handleMouseUp_frame (canvasRef : option Canvas) (tempCtx : bool)
    (st : State) :
  let out := fst (handleMouseUp canvasRef tempCtx st) in
  let st' := snd (handleMouseUp canvasRef tempCtx st) in
  centerX st' = centerX st /\ centerY st' = centerY st /\ zoom st' = zoom st
  /\ maxIterations st' = maxIterations st
  /\ zoomHistory st' = zoomHistory st
  /\ currentPalette st' = currentPalette st
  /\ isMiniMapVisible st' = isMiniMapVisible st
  /\ ((forall c, out <> Downloaded c) -> st' = st)
  /\ (forall c, out = Downloaded c ->
        isSelectingArea st' = false /\ selectionStart st' = None
        /\ selectionEnd st' = None).
Proof.
  cbv zeta.
  destruct (handleMouseUp canvasRef tempCtx st) as [out st'] eqn:E.
  cbn [fst snd].
  destruct out as [ | | c ].
  - assert (st' = st).
    { revert E. unfold handleMouseUp.
      repeat match goal with
             | |- context [ match ?x with _ => _ end ] => destruct x
             end; intro H; inversion H; reflexivity. }
    subst st'. repeat split; try reflexivity; intros; discriminate.
  - assert (st' = st).
    { revert E. unfold handleMouseUp.
      repeat match goal with
             | |- context [ match ?x with _ => _ end ] => destruct x
             end; intro H; inversion H; reflexivity. }
    subst st'. repeat split; try reflexivity; intros; discriminate.
  - apply handleMouseUp_downloaded in E.
    destruct E as (canvas & s & e & _ & _ & _ & _ & _ & _ & _ & _ & ->).
    simpl.
    repeat split; try reflexivity.
    intro H. exfalso. apply (H c). reflexivity.
Qed.



(** X19.  In selection mode a press and release without a move in between
    captures nothing when no corner is left over from an earlier drag:
    the handler returns at its first guard and the press stays
    recorded. *)
Theorem click_without_drag (canvasRef : option Canvas) (tempCtx : bool)
    (e : MouseEvent) (st : State) :
  selectionEnd st = None ->
  handleMouseUp canvasRef tempCtx (handleMouseDown canvasRef e st)
  = (Returned, handleMouseDown canvasRef e st).
Proof.
  intro He. unfold handleMouseDown.
  destruct (isSelectingArea st) eqn:Hsel; cbn [negb].
  - destruct canvasRef as [ canvas | ].
    + unfold handleMouseUp, withSelection. simpl. rewrite He.
      destruct (isSelectingArea st); reflexivity.
    + unfold handleMouseUp. rewrite He.
      destruct (isSelectingArea st), (selectionStart st); reflexivity.
  - unfold handleMouseUp. rewrite Hsel. reflexivity.
Qed.

Lemma click_without_drag_witness :
  let canvas := canvas800x600 0 0 in
  let st := toggleSelectArea initialState in
  handleMouseUp (Some canvas) true
    (handleMouseDown (Some canvas) (clickAt canvas 50 60) st)
  = (Returned, handleMouseDown (Some canvas) (clickAt canvas 50 60) st).
Proof.
  cbv zeta.
  apply (click_without_drag (Some (canvas800x600 0 0)) true
           (clickAt (canvas800x600 0 0) 50 60)
           (toggleSelectArea initialState)).
  reflexivity.
Defined.

(** X20.  "Cancel Selection" does not clear the corners.  When a drag was
    abandoned (selection mode switched off with both corners set) and
    selection mode is switched on again, a plain click (press and release,
    no move) downloads a capture of the rectangle between the new press
    and the corner left over from the abandoned drag. *)
Theorem stale_corner_captured (canvas : Canvas) (e1 : MouseEvent)
    (st : State) (s0 e0 : Point) :
  isSelectingArea st = true ->
  selectionStart st = Some s0 -> selectionEnd st = Some e0 ->
  context2d canvas = true ->
  1 <= Qabs (ptX e0 - (clientX e1 - rectLeft canvas)) ->
  1 <= Qabs (ptY e0 - (clientY e1 - rectTop canvas)) ->
  let cancelled := toggleSelectArea st in
  let pressed :=
    handleMouseDown (Some canvas) e1 (toggleSelectArea cancelled) in
  selectionEnd cancelled = Some e0
  /\ exists c st',
       handleMouseUp (Some canvas) true pressed = (Downloaded c, st')
       /\ imgLeft (image c)
          = toLong (Math.min (clientX e1 - rectLeft canvas) (ptX e0))
       /\ imgTop (image c)
          = toLong (Math.min (clientY e1 - rectTop canvas) (ptY e0)).
Proof.
  intros Hsel Hs He Hctx Hdx Hdy. cbv zeta.
  split; [ simpl; exact He | ].
  unfold toggleSelectArea, handleMouseDown, handleMouseUp, withSelection.
  cbn -[getImageData selLeft selTop selWidth selHeight Qabs Qminus Qplus Qdiv
        Qmult Math.min].
  rewrite Hsel, He, Hctx.
  cbn -[getImageData selLeft selTop selWidth selHeight Qabs Qminus Qplus Qdiv
        Qmult Math.min].
  set (s := {| ptX := clientX e1 - rectLeft canvas;
               ptY := clientY e1 - rectTop canvas |}).
  unfold getImageData.
  destruct (Z.eqb_spec (toLong (selWidth s e0)) 0) as [ E0 | _ ];
    [ exfalso; exact (toLong_ge_1 _ Hdx E0) | ].
  destruct (Z.eqb_spec (toLong (selHeight s e0)) 0) as [ E0 | _ ];
    [ exfalso; exact (toLong_ge_1 _ Hdy E0) | ].
  cbn [orb].
  eexists. eexists. split; [ reflexivity | ].
  split; reflexivity.
Qed.

Lemma stale_corner_captured_witness :
  let canvas := canvas800x600 0 0 in
  let s0 := {| ptX := 10; ptY := 10 |} in
  let e0 := {| ptX := 300; ptY := 200 |} in
  let st := withSelection initialState true (Some s0) (Some e0) in
  let cancelled := toggleSelectArea st in
  let pressed :=
    handleMouseDown (Some canvas) (clickAt canvas 500 400)
      (toggleSelectArea cancelled) in
  selectionEnd cancelled = Some e0
  /\ exists c st',
       handleMouseUp (Some canvas) true pressed = (Downloaded c, st')
       /\ imgLeft (image c) = toLong (Math.min (0 + 500 - 0) 300)
       /\ imgTop (image c) = toLong (Math.min (0 + 400 - 0) 200).
Proof.
  cbv zeta.
  apply (stale_corner_captured (canvas800x600 0 0)
           (clickAt (canvas800x600 0 0) 500 400)
           (withSelection initialState true
              (Some {| ptX := 10; ptY := 10 |})
              (Some {| ptX := 300; ptY := 200 |}))
           {| ptX := 10; ptY := 10 |} {| ptX := 300; ptY := 200 |});
    try reflexivity; vm_compute; discriminate.
Defined.

(** ** The mini-map marker *)

(** X21.  The radius of the marker is clamped: it is never below 1 and,
    on a canvas at least 2 pixels wide, never above half the width; once
    the zoom reaches [50 * width] the marker has shrunk to radius 1. *)
Theorem miniMapMarker_radius (st : State) (w h : Z) :
  0 < zoom st -> (2 <= w)%Z ->
  let r := viewSize (miniMapMarker st w h) in
  1 <= r /\ r <= inject_Z w / 2
  /\ (50 * inject_Z w <= zoom st -> r == 1).
Proof.
  intros Hz Hw. cbv zeta.
  unfold miniMapMarker. cbn [viewSize]. unfold Math.max, Math.min.
  assert (Hwq : 2 <= inject_Z w)
    by (change 2 with (inject_Z 2); rewrite <- Zle_Qle; exact Hw).
  set (a := inject_Z w / zoom st * 50).
  set (b := inject_Z w / 2).
  assert (Hb : 1 <= b) by (unfold b; apply Qle_shift_div_l; lra).
  split; [ apply Q.le_max_l | ].
  split.
  - apply Q.max_lub; [ exact Hb | apply Q.le_min_r ].
  - intro Hbig.
    assert (Ha : a <= 1).
    { unfold a.
      assert (E : inject_Z w / zoom st * 50 == (50 * inject_Z w) / zoom st)
        by (field; lra).
      rewrite E. apply Qle_shift_div_r; lra. }
    apply Q.max_l.
    eapply Qle_trans; [ apply Q.le_min_l | exact Ha ].
Qed.

Lemma miniMapMarker_radius_witness :
  let r := viewSize (miniMapMarker initialState miniMapSize miniMapSize) in
  1 <= r /\ r <= inject_Z miniMapSize / 2
  /\ (50 * inject_Z miniMapSize <= zoom initialState -> r == 1).
Proof.
  cbv zeta.
  apply (miniMapMarker_radius initialState miniMapSize miniMapSize).
  - reflexivity.
  - unfold miniMapSize. lia.
Defined.

(** ** After a capture *)

(** X23.  A downloaded capture switches selection mode off, so the click
    handler is no longer blocked: called on the state the capture leaves,
    [handleZoom] zooms in (one more history entry, twice the zoom). *)
Theorem zoom_enabled_after_capture (canvas : Canvas) (tempCtx : bool)
    (e : MouseEvent) (st st' : State) (c : Capture) :
  handleMouseUp (Some canvas) tempCtx st = (Downloaded c, st') ->
  zoomHistory (handleZoom (Some canvas) e st')
  = zoomHistory st
      ++ [ {| prevCenterX := centerX st; prevCenterY := centerY st;
              prevZoom := zoom st |} ]
  /\ zoom (handleZoom (Some canvas) e st') = zoom st * 2.
Proof.
  intro Hup.
  apply handleMouseUp_downloaded in Hup.
  destruct Hup as (canvas' & s & e' & _ & _ & _ & _ & _ & _ & _ & _ & ->).
  unfold handleZoom, withSelection. simpl. split; reflexivity.
Qed.

Lemma zoom_enabled_after_capture_witness :
  let canvas := canvas800x600 0 0 in
  let st := withSelection initialState true
              (Some {| ptX := 100; ptY := 100 |})
              (Some {| ptX := 300; ptY := 200 |}) in
  let st' := withSelection st false None None in
  zoomHistory (handleZoom (Some canvas) (clickAt canvas 300 200) st')
  = zoomHistory st
      ++ [ {| prevCenterX := centerX st; prevCenterY := centerY st;
              prevZoom := zoom st |} ]
  /\ zoom (handleZoom (Some canvas) (clickAt canvas 300 200) st')
     = zoom st * 2.
Proof.
  cbv zeta.
  eapply (zoom_enabled_after_capture (canvas800x600 0 0) true
            (clickAt (canvas800x600 0 0) 300 200)
            (withSelection initialState true
               (Some {| ptX := 100; ptY := 100 |})
               (Some {| ptX := 300; ptY := 200 |}))).
  reflexivity.
Defined.

(** * The engine on IEEE doubles *)

(** ** Rounding to the nearest double *)

Lemma pow2_pos (e : Z) : 0 < 2 ^ e.
Proof. apply Qpower_0_lt. reflexivity. Qed.

Lemma pow2_add (a b : Z) : 2 ^ (a + b) == 2 ^ a * 2 ^ b.
Proof. apply Qpower_plus. discriminate. Qed.

Lemma pow2_le (a b : Z) : (a <= b)%Z -> 2 ^ a <= 2 ^ b.
Proof. intro H. apply Qpower_le_compat_l; [ exact H | discriminate ]. Qed.

Lemma pow2_cancel (e : Z) : 2 ^ (- e) * 2 ^ e == 1.
Proof. rewrite <- pow2_add. replace (- e + e)%Z with 0%Z by lia. reflexivity. Qed.

Lemma nearestEven_ge (K : Z) (t : Q) :
  inject_Z K <= t -> (K <= Rounded.nearestEven t)%Z.
Proof.
  intro H. unfold Rounded.nearestEven.
  assert (Hf : (K <= Qfloor t)%Z).
  { rewrite <- (Qfloor_Z K). apply Qfloor_resp_le. exact H. }
  destruct (Qcompare _ _); [ destruct (Z.even _) | | ]; lia.
Qed.

Lemma nearestEven_le (K : Z) (t : Q) :
  t <= inject_Z K -> (Rounded.nearestEven t <= K)%Z.
Proof.
  intro H. unfold Rounded.nearestEven.
  pose proof (Qfloor_le t) as Hfl.
  assert (Hf : (Qfloor t <= K)%Z).
  { rewrite <- (Qfloor_Z K). apply Qfloor_resp_le. exact H. }
  assert (Hstrict : 0 < t - inject_Z (Qfloor t) -> (Qfloor t < K)%Z).
  { intro Hd. rewrite Zlt_Qlt. lra. }
  destruct (Qcompare_spec (t - inject_Z (Qfloor t)) (1 # 2)) as [ E | L | G ].
  - destruct (Z.even _); [ lia | ].
    assert (0 < t - inject_Z (Qfloor t)) by (rewrite E; reflexivity).
    apply Hstrict in H0. lia.
  - lia.
  - assert (0 < t - inject_Z (Qfloor t)) by lra.
    apply Hstrict in H0. lia.
Qed.

Lemma scaled_back (q : Q) (e : Z) : q * 2 ^ (- e) * 2 ^ e == q.
Proof. rewrite <- Qmult_assoc, pow2_cancel. ring. Qed.

Lemma grid_scaled (k j e : Z) :
  (e <= j)%Z -> inject_Z (k * 2 ^ (j - e)) * 2 ^ e == inject_Z k * 2 ^ j.
Proof.
  intro H. rewrite inject_Z_mult, <- (two_pow_Q (j - e)) by lia.
  rewrite <- Qmult_assoc, <- pow2_add.
  replace (j - e + e)%Z with j by lia. reflexivity.
Qed.

Lemma grid_below_binade (c : Q) (k j e : Z) :
  (Z.abs k < 2 ^ 53)%Z -> c == inject_Z k * 2 ^ j -> (j < e)%Z ->
  - 2 ^ (e + 52) < c /\ c < 2 ^ (e + 52).
Proof.
  intros Hk Hc Hje.
  pose proof (pow2_pos j) as Hj.
  assert (Hle : 2 ^ (53 + j) <= 2 ^ (e + 52)) by (apply pow2_le; lia).
  rewrite pow2_add in Hle.
  assert (H53 : 2 ^ 53 == inject_Z (2 ^ 53)) by (apply two_pow_Q; lia).
  rewrite H53 in Hle.
  assert (Hk1 : inject_Z k < inject_Z (2 ^ 53)) by (rewrite <- Zlt_Qlt; lia).
  assert (Hk2 : - inject_Z (2 ^ 53) < inject_Z k).
  { rewrite <- inject_Z_opp, <- Zlt_Qlt. lia. }
  rewrite Hc. split; nra.
Qed.

Lemma exponentOf_normal (q : Q) (j : Z) :
  (-1074 <= j)%Z -> (j < Rounded.exponentOf q)%Z ->
  Rounded.exponentOf q = (Math.floorLog2 (Qabs q) - 52)%Z.
Proof. unfold Rounded.exponentOf. lia. Qed.

Lemma binade_lower (q : Q) (j : Z) :
  ~ q == 0 -> (-1074 <= j)%Z -> (j < Rounded.exponentOf q)%Z ->
  2 ^ (Rounded.exponentOf q + 52) <= Qabs q.
Proof.
  intros Hq Hj He.
  rewrite (exponentOf_normal q j Hj He).
  replace (Math.floorLog2 (Qabs q) - 52 + 52)%Z
    with (Math.floorLog2 (Qabs q)) by lia.
  apply floorLog2_spec.
  destruct (Qlt_le_dec q 0) as [ Hneg | Hpos ].
  - rewrite (Qabs_neg q) by lra. lra.
  - rewrite (Qabs_pos q Hpos).
    apply Qle_lteq in Hpos. destruct Hpos as [ H | H ]; [ exact H | ].
    exfalso. apply Hq. symmetry. exact H.
Qed.

(** Rounding to nearest never crosses a number of the grid. *)
Lemma nearest_ge (c q : Q) :
  Rounded.grid c -> ~ q == 0 -> c <= q -> c <= Rounded.nearest q.
Proof.
  intros (k & j & Hk & Hj & Hc) Hq0 Hcq. unfold Rounded.nearest.
  set (e := Rounded.exponentOf q).
  pose proof (pow2_pos e) as He.
  pose proof (scaled_back q e) as Ht.
  destruct (Z_le_gt_dec e j) as [ Hej | Hje ].
  - pose proof (grid_scaled k j e Hej) as HK.
    assert (Hle : inject_Z (k * 2 ^ (j - e)) <= q * 2 ^ (- e)).
    { apply (Qmult_le_r _ _ (2 ^ e) He). rewrite HK, Ht, <- Hc. exact Hcq. }
    apply nearestEven_ge in Hle.
    rewrite Hc, <- HK.
    apply Qmult_le_compat_r; [ rewrite <- Zle_Qle; exact Hle | lra ].
  - assert (Hje' : (j < Rounded.exponentOf q)%Z) by (fold e; lia).
    pose proof (binade_lower q j Hq0 Hj Hje') as Hlow. fold e in Hlow.
    destruct (grid_below_binade c k j e Hk Hc ltac:(lia)) as [Hc1 Hc2].
    destruct (Qlt_le_dec q 0) as [ Hneg | Hpos ].
    + rewrite (Qabs_neg q) in Hlow by lra. lra.
    + rewrite (Qabs_pos q Hpos) in Hlow.
      assert (Hle : inject_Z (2 ^ 52) <= q * 2 ^ (- e)).
      { apply (Qmult_le_r _ _ (2 ^ e) He). rewrite Ht.
        rewrite <- (two_pow_Q 52) by lia. rewrite <- pow2_add.
        replace (52 + e)%Z with (e + 52)%Z by lia. exact Hlow. }
      apply nearestEven_ge in Hle.
      apply Qle_trans with (2 ^ (e + 52)); [ lra | ].
      replace (e + 52)%Z with (52 + e)%Z by lia.
      rewrite pow2_add, (two_pow_Q 52) by lia.
      apply Qmult_le_compat_r; [ rewrite <- Zle_Qle; exact Hle | lra ].
Qed.

Lemma nearest_le (c q : Q) :
  Rounded.grid c -> ~ q == 0 -> q <= c -> Rounded.nearest q <= c.
Proof.
  intros (k & j & Hk & Hj & Hc) Hq0 Hcq. unfold Rounded.nearest.
  set (e := Rounded.exponentOf q).
  pose proof (pow2_pos e) as He.
  pose proof (scaled_back q e) as Ht.
  destruct (Z_le_gt_dec e j) as [ Hej | Hje ].
  - pose proof (grid_scaled k j e Hej) as HK.
    assert (Hle : q * 2 ^ (- e) <= inject_Z (k * 2 ^ (j - e))).
    { apply (Qmult_le_r _ _ (2 ^ e) He). rewrite HK, Ht, <- Hc. exact Hcq. }
    apply nearestEven_le in Hle.
    rewrite Hc, <- HK.
    apply Qmult_le_compat_r; [ rewrite <- Zle_Qle; exact Hle | lra ].
  - assert (Hje' : (j < Rounded.exponentOf q)%Z) by (fold e; lia).
    pose proof (binade_lower q j Hq0 Hj Hje') as Hlow. fold e in Hlow.
    destruct (grid_below_binade c k j e Hk Hc ltac:(lia)) as [Hc1 Hc2].
    destruct (Qlt_le_dec q 0) as [ Hneg | Hpos ].
    + rewrite (Qabs_neg q) in Hlow by lra.
      assert (Hle : q * 2 ^ (- e) <= inject_Z (- 2 ^ 52)).
      { apply (Qmult_le_r _ _ (2 ^ e) He). rewrite Ht.
        rewrite inject_Z_opp, <- (two_pow_Q 52) by lia.
        assert (E : - 2 ^ 52 * 2 ^ e == - 2 ^ (e + 52)).
        { replace (e + 52)%Z with (52 + e)%Z by lia. rewrite pow2_add. ring. }
        rewrite E. lra. }
      apply nearestEven_le in Hle.
      apply Qle_trans with (- 2 ^ (e + 52)); [ | lra ].
      replace (e + 52)%Z with (52 + e)%Z by lia.
      rewrite pow2_add, (two_pow_Q 52) by lia.
      assert (E : - (inject_Z (2 ^ 52) * 2 ^ e) == inject_Z (- 2 ^ 52) * 2 ^ e)
        by (rewrite inject_Z_opp; ring).
      rewrite E.
      apply Qmult_le_compat_r; [ rewrite <- Zle_Qle; exact Hle | lra ].
    + rewrite (Qabs_pos q Hpos) in Hlow. lra.
Qed.

Lemma rnd_ge (c q : Q) :
  Rounded.grid c -> - 2 ^ 1024 < c -> c <= q -> Rounded.atLeast c (Rounded.rnd q).
Proof.
  intros Hg Hc Hcq. unfold Rounded.rnd.
  destruct (Qeq_bool q 0) eqn:E0.
  - apply Qeq_bool_iff in E0. simpl. lra.
  - assert (Hq0 : ~ q == 0).
    { intro H. apply Qeq_bool_iff in H. congruence. }
    pose proof (nearest_ge c q Hg Hq0 Hcq) as Hr.
    destruct (Qle_bool (2 ^ 1024) (Rounded.nearest q)); [ exact I | ].
    destruct (Qle_bool (Rounded.nearest q) (- 2 ^ 1024)) eqn:E2.
    + apply Qle_bool_iff in E2. lra.
    + exact Hr.
Qed.

Lemma rnd_le (c q : Q) :
  Rounded.grid c -> c < 2 ^ 1024 -> q <= c -> Rounded.atMost c (Rounded.rnd q).
Proof.
  intros Hg Hc Hcq. unfold Rounded.rnd.
  destruct (Qeq_bool q 0) eqn:E0.
  - apply Qeq_bool_iff in E0. simpl. lra.
  - assert (Hq0 : ~ q == 0).
    { intro H. apply Qeq_bool_iff in H. congruence. }
    pose proof (nearest_le c q Hg Hq0 Hcq) as Hr.
    destruct (Qle_bool (2 ^ 1024) (Rounded.nearest q)) eqn:E1.
    + apply Qle_bool_iff in E1. lra.
    + destruct (Qle_bool (Rounded.nearest q) (- 2 ^ 1024)); [ exact I | exact Hr ].
Qed.

Lemma rnd_between (lo hi q : Q) :
  Rounded.grid lo -> Rounded.grid hi -> - 2 ^ 1024 < lo -> hi < 2 ^ 1024 ->
  lo <= q -> q <= hi ->
  exists r, Rounded.rnd q = Rounded.Fin r /\ lo <= r /\ r <= hi.
Proof.
  intros Gl Gh Hl Hh H1 H2.
  pose proof (rnd_ge lo q Gl Hl H1) as Ha.
  pose proof (rnd_le hi q Gh Hh H2) as Hb.
  destruct (Rounded.rnd q) as [ | | | r ]; simpl in *; try contradiction.
  exists r. auto.
Qed.

(* Rounded.grid constants *)
Lemma grid_int (k : Z) : (Z.abs k < 2 ^ 53)%Z -> Rounded.grid (inject_Z k).
Proof.
  intro H. exists k, 0%Z. split; [ exact H | split; [ lia | ] ].
  change (2 ^ 0) with 1. ring.
Qed.

Lemma grid_pow2 (j : Z) : (-1074 <= j)%Z -> Rounded.grid (2 ^ j).
Proof.
  intro H. exists 1%Z, j. split; [ reflexivity | split; [ exact H | ] ].
  change (inject_Z 1) with 1. ring.
Qed.

Lemma grid_neg_pow2 (j : Z) : (-1074 <= j)%Z -> Rounded.grid (- 2 ^ j).
Proof.
  intro H. exists (-1)%Z, j. split; [ reflexivity | split; [ exact H | ] ].
  change (inject_Z (-1)) with (-1). ring.
Qed.

Lemma pow2_lt_top (j : Z) : (j < 1024)%Z -> 2 ^ j < 2 ^ 1024.
Proof. intro H. apply Qpower_lt_compat_l; [ exact H | reflexivity ]. Qed.

Lemma small_lt_top (k : Z) : (Z.abs k < 2 ^ 53)%Z ->
  - 2 ^ 1024 < inject_Z k /\ inject_Z k < 2 ^ 1024.
Proof.
  intro H.
  assert (H1 : 2 ^ 53 <= 2 ^ 1024) by (apply pow2_le; lia).
  rewrite (two_pow_Q 53) in H1 by lia.
  assert (Hk1 : inject_Z k < inject_Z (2 ^ 53)) by (rewrite <- Zlt_Qlt; lia).
  assert (Hk2 : - inject_Z (2 ^ 53) < inject_Z k).
  { rewrite <- inject_Z_opp, <- Zlt_Qlt. lia. }
  split; lra.
Qed.

Lemma reach_facts :
  8 <= 2 ^ 511 /\ 2 ^ 511 * 2 ^ 511 == 2 ^ 1022 /\ 2 * 2 ^ 511 == 2 ^ 512
  /\ 2 ^ 512 * 2 ^ 511 == 2 ^ 1023 /\ 2 ^ 1022 + 2 ^ 1022 == 2 ^ 1023
  /\ 2 ^ 1023 + 2 ^ 1022 == 3 * 2 ^ 1022 /\ 2 ^ 511 <= 2 ^ 1022
  /\ 3 * 2 ^ 1022 < 2 ^ 1024.
Proof.
  assert (F1 : 8 <= 2 ^ 511) by (change 8 with (2 ^ 3); apply pow2_le; lia).
  assert (F2 : 2 ^ 511 * 2 ^ 511 == 2 ^ 1022)
    by (rewrite <- pow2_add; reflexivity).
  assert (F3 : 2 * 2 ^ 511 == 2 ^ 512)
    by (change 2 with (2 ^ 1) at 1; rewrite <- pow2_add; reflexivity).
  assert (F4 : 2 ^ 512 * 2 ^ 511 == 2 ^ 1023)
    by (rewrite <- pow2_add; reflexivity).
  assert (F5 : 2 ^ 1022 + 2 ^ 1022 == 2 ^ 1023).
  { change (2 ^ 1023) with (2 ^ (1 + 1022)). rewrite pow2_add.
    change (2 ^ 1) with 2. ring. }
  assert (F6 : 2 ^ 1023 + 2 ^ 1022 == 3 * 2 ^ 1022) by (rewrite <- F5; ring).
  assert (F7 : 2 ^ 511 <= 2 ^ 1022) by (apply pow2_le; lia).
  assert (F8 : 3 * 2 ^ 1022 < 2 ^ 1024).
  { change (2 ^ 1024) with (2 ^ (2 + 1022)). rewrite pow2_add.
    change (2 ^ 2) with 4. pose proof (pow2_pos 1022). lra. }
  tauto.
Qed.

(** Three quarters of [2^1024], and its opposite, are doubles. *)
Lemma grid_three_quarters :
  Rounded.grid (3 * 2 ^ 1022) /\ Rounded.grid (- (3 * 2 ^ 1022)).
Proof.
  split.
  - exists 3%Z, 1022%Z. split; [ reflexivity | split; [ lia | reflexivity ] ].
  - exists (-3)%Z, 1022%Z.
    split; [ reflexivity | split; [ lia | ] ].
    change (inject_Z (-3)) with (-3). ring.
Qed.

Lemma add_atLeast (c c1 c2 : Q) (v1 v2 : Rounded.num) :
  Rounded.grid c -> - 2 ^ 1024 < c -> c <= c1 + c2 ->
  Rounded.atLeast c1 v1 -> Rounded.atLeast c2 v2 -> Rounded.atLeast c (Rounded.add v1 v2).
Proof.
  intros Hg Hc Hsum H1 H2.
  destruct v1 as [ | | | r1 ], v2 as [ | | | r2 ]; simpl in *;
    try contradiction; try exact I.
  apply rnd_ge; [ exact Hg | exact Hc | lra ].
Qed.

Lemma gt_atLeast (c : Q) (v : Rounded.num) :
  Rounded.atLeast c v -> 4 < c -> Rounded.gt v (Rounded.Fin 4) = true.
Proof.
  intros Hv Hc. destruct v as [ | | | r ]; simpl in *; try contradiction.
  - reflexivity.
  - apply Qgtb_true_iff. lra.
Qed.

Lemma square_atLeast (r : Q) :
  Rounded.atLeast 0 (Rounded.rnd (r * r))
  /\ (5 <= r \/ r <= -5 -> Rounded.atLeast 25 (Rounded.rnd (r * r))).
Proof.
  split.
  - apply rnd_ge; [ apply (grid_int 0); reflexivity
                  | apply (small_lt_top 0); reflexivity | nra ].
  - intro H.
    apply rnd_ge; [ apply (grid_int 25); reflexivity
                  | apply (small_lt_top 25); reflexivity | ].
    change (inject_Z 25) with 25. destruct H; nra.
Qed.

(** With [x] above 2 and both coordinates within [2^500], the first turn
    of the loop ends with a squared modulus of at least 25, or with
    [Infinity]: when [|y| < 1] the new real part is at least 5, otherwise
    the new imaginary part is at least 5 in magnitude. *)
Lemma first_turn_escapes (x y : Q) :
  2 < x -> x <= (2 ^ 511) -> - (2 ^ 511) <= y -> y <= (2 ^ 511) ->
  let cX' := Rounded.add (Rounded.sub (Rounded.mul (Rounded.Fin x) (Rounded.Fin x)) (Rounded.mul (Rounded.Fin y) (Rounded.Fin y))) (Rounded.Fin x) in
  let cY' := Rounded.add (Rounded.mul (Rounded.mul (Rounded.Fin 2) (Rounded.Fin x)) (Rounded.Fin y)) (Rounded.Fin y) in
  Rounded.gt (Rounded.add (Rounded.mul cX' cX') (Rounded.mul cY' cY')) (Rounded.Fin 4) = true.
Proof.
  intros Hx HxB HyL HyU. cbv zeta.
  destruct reach_facts as (R8 & RR & R2 & RT & RH1 & RH2 & RB & T3).
  destruct grid_three_quarters as [G3 G3n].
  set (B := 2 ^ 511) in *. clearbody B.
  pose proof (pow2_pos 1022) as P1022.
  pose proof (pow2_lt_top 1022 ltac:(lia)) as T1022.
  pose proof (pow2_lt_top 1023 ltac:(lia)) as T1023.
  pose proof (pow2_lt_top 512 ltac:(lia)) as T512.
  pose proof (small_lt_top 4 ltac:(reflexivity)) as [S4a S4b].
  change (inject_Z 4) with 4 in S4a, S4b.
  cbn [Rounded.mul].
  (* x * x *)
  destruct (rnd_between 4 (2 ^ 1022) (x * x)) as (a & Ea & Ha1 & Ha2);
    [ apply (grid_int 4); reflexivity | apply grid_pow2; lia | lra | lra
    | nra | nra | ].
  (* y * y *)
  destruct (rnd_between 0 (2 ^ 1022) (y * y)) as (b & Eb & Hb1 & Hb2);
    [ apply (grid_int 0); reflexivity | apply grid_pow2; lia | lra | lra
    | nra | nra | ].
  assert (Hb3 : y * y <= 1 -> b <= 1).
  { intro Hy.
    pose proof (rnd_le 1 (y * y) (grid_int 1 ltac:(reflexivity))
                  ltac:(lra) Hy) as H.
    rewrite Eb in H. exact H. }
  rewrite Ea, Eb. cbn [Rounded.sub].
  (* a - b *)
  destruct (rnd_between (- 2 ^ 1022) (2 ^ 1022) (a - b))
    as (d & Ed & Hd1 & Hd2);
    [ apply grid_neg_pow2; lia | apply grid_pow2; lia | lra | lra
    | lra | lra | ].
  assert (Hd3 : 3 <= a - b -> 3 <= d).
  { intro H3.
    pose proof (rnd_ge 3 (a - b) (grid_int 3 ltac:(reflexivity))
                  ltac:(lra) H3) as H.
    rewrite Ed in H. exact H. }
  rewrite Ed. cbn [Rounded.add].
  (* d + x *)
  destruct (rnd_between (- 2 ^ 1023) (2 ^ 1023) (d + x))
    as (cx & Ecx & Hcx1 & Hcx2);
    [ apply grid_neg_pow2; lia | apply grid_pow2; lia | lra | lra
    | lra | lra | ].
  assert (Hcx3 : 5 <= d + x -> 5 <= cx).
  { intro H5.
    pose proof (rnd_ge 5 (d + x) (grid_int 5 ltac:(reflexivity))
                  ltac:(lra) H5) as H.
    rewrite Ecx in H. exact H. }
  rewrite Ecx.
  (* 2 * x *)
  destruct (rnd_between 4 (2 ^ 512) (2 * x)) as (u & Eu & Hu1 & Hu2);
    [ apply (grid_int 4); reflexivity | apply grid_pow2; lia | lra | lra
    | lra | lra | ].
  rewrite Eu. cbn [Rounded.mul].
  (* u * y *)
  destruct (rnd_between (- 2 ^ 1023) (2 ^ 1023) (u * y))
    as (v & Ev & Hv1 & Hv2);
    [ apply grid_neg_pow2; lia | apply grid_pow2; lia | lra | lra
    | nra | nra | ].
  assert (Hv3 : 1 <= y -> 4 <= v).
  { intro Hy.
    pose proof (rnd_ge 4 (u * y) (grid_int 4 ltac:(reflexivity))
                  ltac:(lra) ltac:(change (inject_Z 4) with 4; nra)) as H.
    rewrite Ev in H. exact H. }
  assert (Hv4 : y <= -1 -> v <= -4).
  { intro Hy.
    pose proof (rnd_le (-4) (u * y) (grid_int (-4) ltac:(reflexivity))
                  ltac:(lra) ltac:(change (inject_Z (-4)) with (-4); nra))
      as H.
    rewrite Ev in H. exact H. }
  rewrite Ev. cbn [Rounded.add].
  (* v + y *)
  destruct (rnd_between (- (3 * 2 ^ 1022)) (3 * 2 ^ 1022) (v + y))
    as (cy & Ecy & Hcy1 & Hcy2);
    [ exact G3n | exact G3 | lra | lra | lra | lra | ].
  assert (Hcy3 : 5 <= v + y -> 5 <= cy).
  { intro H5.
    pose proof (rnd_ge 5 (v + y) (grid_int 5 ltac:(reflexivity))
                  ltac:(lra) H5) as H.
    rewrite Ecy in H. exact H. }
  assert (Hcy4 : v + y <= -5 -> cy <= -5).
  { intro H5.
    pose proof (rnd_le (-5) (v + y) (grid_int (-5) ltac:(reflexivity))
                  ltac:(lra) H5) as H.
    rewrite Ecy in H. exact H. }
  rewrite Ecy. cbn [Rounded.mul].
  destruct (square_atLeast cx) as [Sx0 Sx25].
  destruct (square_atLeast cy) as [Sy0 Sy25].
  pose proof (small_lt_top 25 ltac:(reflexivity)) as [S25 _].
  change (inject_Z 25) with 25 in S25.
  apply (gt_atLeast 25); [ | lra ].
  destruct (Qlt_le_dec y 1) as [ Hy1 | Hy1 ].
  - destruct (Qlt_le_dec (-1) y) as [ Hy2 | Hy2 ].
    + (* |y| < 1 : the real part is at least 5 *)
      assert (Hsq : y * y <= 1) by nra.
      pose proof (Hb3 Hsq). pose proof (Hd3 ltac:(lra)).
      pose proof (Hcx3 ltac:(lra)) as H5.
      apply (add_atLeast 25 25 0); [ apply (grid_int 25); reflexivity
                                   | exact S25 | lra | | exact Sy0 ].
      apply Sx25. left. exact H5.
    + pose proof (Hv4 Hy2). pose proof (Hcy4 ltac:(lra)) as H5.
      apply (add_atLeast 25 0 25); [ apply (grid_int 25); reflexivity
                                   | exact S25 | lra | exact Sx0 | ].
      apply Sy25. right. exact H5.
  - pose proof (Hv3 Hy1). pose proof (Hcy3 ltac:(lra)) as H5.
    apply (add_atLeast 25 0 25); [ apply (grid_int 25); reflexivity
                                 | exact S25 | lra | exact Sx0 | ].
    apply Sy25. left. exact H5.
Qed.

(** C5 as stated fails on doubles: at [x = y = 1e200] (the double nearest
    to it), [x > 2], yet the budget is used up.  Both squares overflow to
    [Infinity], their difference is [NaN], and no comparison with [NaN] is
    true. *)
Lemma evaluate_overflow_counterexample :
  let x := 0x1.4e718d7d7625ap+664%float in
  (2 <? x)%float = true
  /\ Binary64.evaluate x x 10 = 10%Z
  /\ Rounded.evaluate (Rounded.ofFloat x) (Rounded.ofFloat x) 10 = 10%Z
  /\ Binary64.evaluate x x 10 <> 0%Z.
Proof.
  cbv zeta.
  split; [ reflexivity | ].
  split; [ vm_compute; reflexivity | ].
  split; [ vm_compute; reflexivity | ].
  vm_compute. discriminate.
Qed.

(** C5, amended.  On doubles, for every [x > 2] and every [y], both of
    magnitude at most [2^511] (about 6.7e153), and every budget [N >= 1],
    the loop returns 0: the first test finds a squared modulus above 4
    before the counter is ever incremented. *)
Theorem evaluate_outside_is_zero_on_doubles (x y : Q) (N : Z) :
  2 < x -> x <= 2 ^ 511 -> - 2 ^ 511 <= y -> y <= 2 ^ 511 -> (1 <= N)%Z ->
  Rounded.evaluate (Rounded.Fin x) (Rounded.Fin y) N = 0%Z.
Proof.
  intros Hx HxB HyL HyU HN. unfold Rounded.evaluate.
  destruct (Z.to_nat N) as [ | rem ] eqn:E; [ lia | ].
  cbn [Rounded.escapeLoop].
  rewrite (first_turn_escapes x y Hx HxB HyL HyU). reflexivity.
Qed.

Lemma evaluate_outside_is_zero_on_doubles_witness :
  2 < 3 /\ 3 <= 2 ^ 511 /\ - 2 ^ 511 <= 7 # 2 /\ 7 # 2 <= 2 ^ 511
  /\ (1 <= 50)%Z
  /\ Rounded.evaluate (Rounded.Fin 3) (Rounded.Fin (7 # 2)) 50 = 0%Z.
Proof.
  assert (H1 : 2 < 3) by reflexivity.
  assert (H2 : 3 <= 2 ^ 511) by (vm_compute; discriminate).
  assert (H3 : - 2 ^ 511 <= 7 # 2) by (vm_compute; discriminate).
  assert (H4 : 7 # 2 <= 2 ^ 511) by (vm_compute; discriminate).
  assert (H5 : (1 <= 50)%Z) by lia.
  repeat (split; [ assumption | ]).
  exact (evaluate_outside_is_zero_on_doubles 3 (7 # 2) 50 H1 H2 H3 H4 H5).
Defined.

(** The rounded operations and the primitive ones give the same number on
    every pair of the sample doubles, and the two escape loops the same
    count on the sample points. *)
Lemma rounded_agrees_with_primitive :
  forallb (fun a => forallb (agreeOn a) sampleDoubles) sampleDoubles = true
  /\ forallb evaluateAgreesOn samplePoints = true.
Proof.
  split; vm_cast_no_check (eq_refl true).
Qed.

(** ** Navigation on doubles *)

Lemma scale_table :
  forallb Binary64.depthCheck (seq 0 (S Binary64.lastFiniteDepth)) = true.
Proof. vm_cast_no_check (eq_refl true). Qed.

Lemma budget_table :
  forallb (fun n => Binary64.budgetCheck (764 + 100 * Z.of_nat n))
          (seq 0 (S Binary64.lastFiniteDepth)) = true.
Proof. vm_cast_no_check (eq_refl true). Qed.

(** [floor(100 * log2 (200 * 2^n))] is [764 + 100 * n]:
    [2^764 <= 200^100 < 2^765]. *)
Lemma floor100log2_doubled (n : nat) (q : Q) :
  q == inject_Z (200 * 2 ^ Z.of_nat n) ->
  Math.floor100log2 q = (764 + 100 * Z.of_nat n)%Z.
Proof.
  intro Hv.
  assert (Hp : (0 < 2 ^ (100 * Z.of_nat n))%Z)
    by (apply Z.pow_pos_nonneg; lia).
  assert (Hpn : (0 < 2 ^ Z.of_nat n)%Z) by (apply Z.pow_pos_nonneg; lia).
  assert (Hq : 0 < q).
  { rewrite Hv. change 0 with (inject_Z 0). rewrite <- Zlt_Qlt. lia. }
  assert (Hpow : q ^ 100 == inject_Z (200 ^ 100 * 2 ^ (100 * Z.of_nat n))).
  { rewrite Hv, <- (Zpower_Qpower _ 100) by lia.
    apply inject_Z_injective.
    rewrite Z.pow_mul_l, <- Z.pow_mul_r by lia.
    f_equal. f_equal. lia. }
  assert (H764 : (2 ^ 764 <= 200 ^ 100)%Z) by (vm_compute; discriminate).
  assert (H765 : (200 ^ 100 < 2 ^ 765)%Z) by (vm_compute; reflexivity).
  apply floor100log2_unique; [ exact Hq | | ].
  - rewrite Hpow, two_pow_Q by lia. rewrite <- Zle_Qle.
    rewrite Z.pow_add_r by lia. nia.
  - rewrite Hpow, two_pow_Q by lia. rewrite <- Zlt_Qlt.
    replace (764 + 100 * Z.of_nat n + 1)%Z
      with (765 + 100 * Z.of_nat n)%Z by lia.
    rewrite Z.pow_add_r by lia. nia.
Qed.

(** Up to depth 1016 the doublings are exact. *)
Lemma scale_finite (n : nat) :
  (n <= Binary64.lastFiniteDepth)%nat ->
  Binary64.doubled (Z.of_nat n) (Binary64.scale n)
  /\ (200 <=? Binary64.scale n)%float = true
  /\ (0 <? Binary64.scale n)%float = true.
Proof.
  intro Hn.
  pose proof scale_table as H. rewrite forallb_forall in H.
  specialize (H n ltac:(apply in_seq; lia)).
  unfold Binary64.depthCheck in H.
  rewrite !andb_true_iff in H. destruct H as [[H1 H2] H3].
  split; [ | split; assumption ].
  unfold Binary64.doubled.
  destruct (Binary64.toQ (Binary64.scale n)) as [ q | ]; [ | discriminate ].
  exists q. split; [ reflexivity | apply Qeq_bool_iff; exact H1 ].
Qed.

(** From depth 1017 on the zoom is [Infinity]. *)
Lemma scale_overflow (n : nat) :
  (Binary64.lastFiniteDepth < n)%nat -> Binary64.scale n = infinity.
Proof.
  unfold Binary64.lastFiniteDepth. intro Hn.
  replace n with ((n - 1017) + 1017)%nat by lia.
  induction (n - 1017)%nat as [ | k IH ].
  - vm_compute. reflexivity.
  - change (Binary64.scale (S k + 1017))
      with (Binary64.scale (k + 1017) * 2)%float.
    rewrite IH. reflexivity.
Qed.

Lemma scale_reachable (n : nat) : Binary64.reachableScale (Binary64.scale n).
Proof.
  destruct (Nat.le_gt_cases n Binary64.lastFiniteDepth) as [ Hle | Hgt ].
  - right. exists (Z.of_nat n).
    split; [ unfold Binary64.lastFiniteDepth in Hle; lia | ].
    apply scale_finite, Hle.
  - left. apply scale_overflow, Hgt.
Qed.

Lemma scale_at_least_200 (n : nat) :
  (200 <=? Binary64.scale n)%float = true
  /\ (0 <? Binary64.scale n)%float = true.
Proof.
  destruct (Nat.le_gt_cases n Binary64.lastFiniteDepth) as [ Hle | Hgt ].
  - apply scale_finite, Hle.
  - rewrite (scale_overflow n Hgt). split; reflexivity.
Qed.

(** The budget of a doubled zoom: [floor(100 * log2 zoom)] is
    [764 + 100 * n], and the clamp brings it into range. *)
Lemma budget_of_scale (n : nat) :
  Binary64.budgetInRange (Binary64.iterationBudget (Binary64.scale n)).
Proof.
  destruct (Nat.le_gt_cases n Binary64.lastFiniteDepth) as [ Hle | Hgt ].
  2:{ rewrite (scale_overflow n Hgt). split; reflexivity. }
  destruct (scale_finite n Hle) as ((q & Hq & Hv) & _ & _).
  assert (Hpos : 0 < q).
  { rewrite Hv. change 0 with (inject_Z 0). rewrite <- Zlt_Qlt.
    assert (0 < 2 ^ Z.of_nat n)%Z by (apply Z.pow_pos_nonneg; lia). lia. }
  unfold Binary64.iterationBudget, Binary64.floor100log2. rewrite Hq.
  replace (Qgtb q 0) with true
    by (symmetry; apply Qgtb_true_iff; exact Hpos).
  rewrite (floor100log2_doubled n q Hv).
  pose proof budget_table as H. rewrite forallb_forall in H.
  specialize (H n ltac:(apply in_seq; lia)).
  unfold Binary64.budgetCheck in H.
  apply andb_true_iff in H. exact H.
Qed.

Lemma binary64_undo_push (st : Binary64.State) (l : list Binary64.ZoomEntry)
    (x : Binary64.ZoomEntry) :
  Binary64.zoomHistory st = l ++ [x] ->
  Binary64.handleUndoZoom st
  = {| Binary64.centerX := Binary64.prevCenterX x;
       Binary64.centerY := Binary64.prevCenterY x;
       Binary64.zoom := Binary64.prevZoom x;
       Binary64.maxIterations :=
         Binary64.iterationBudget (Binary64.prevZoom x);
       Binary64.zoomHistory := l;
       Binary64.isSelectingArea := Binary64.isSelectingArea st |}.
Proof.
  intro Hh. unfold Binary64.handleUndoZoom. rewrite Hh.
  rewrite last_entry_of_push, removelast_last.
  replace (0 <? List.length (l ++ [x]))%nat with true.
  2:{ symmetry. apply Nat.ltb_lt. rewrite length_app. simpl. lia. }
  reflexivity.
Qed.

Lemma binary64_depth_initial :
  Binary64.depthInvariant Binary64.initialState.
Proof.
  unfold Binary64.depthInvariant. simpl.
  split; [ reflexivity | ].
  split; [ intros [ | i ] entry H; discriminate H | ].
  split; [ intros entry H; discriminate H | ].
  split; [ intros _; split; reflexivity | ].
  right. split; reflexivity.
Qed.

Lemma binary64_depth_step (st : Binary64.State) (g : Binary64.Gesture) :
  Binary64.depthInvariant st -> Binary64.depthInvariant (Binary64.step st g).
Proof.
  intro Hinv. pose proof Hinv as (Hz & He & H0 & Hc & Hb).
  destruct g as [ canvasRef e | | ]; simpl.
  - (* zoom-in *)
    unfold Binary64.handleZoom.
    destruct (Binary64.isSelectingArea st); [ exact Hinv | ].
    destruct canvasRef as [ canvas | ]; [ | exact Hinv ].
    unfold Binary64.depthInvariant.
    cbn [Binary64.zoom Binary64.zoomHistory Binary64.maxIterations
         Binary64.centerX Binary64.centerY].
    set (cur := {| Binary64.prevCenterX := Binary64.centerX st |}).
    split.
    { rewrite length_app. simpl List.length.
      replace (List.length (Binary64.zoomHistory st) + 1)%nat
        with (S (List.length (Binary64.zoomHistory st))) by lia.
      rewrite Hz. reflexivity. }
    split.
    { intros i entry Hi.
      destruct (Nat.lt_ge_cases i (List.length (Binary64.zoomHistory st)))
        as [ Hlt | Hge ].
      - rewrite nth_error_app1 in Hi by exact Hlt. exact (He i entry Hi).
      - rewrite nth_error_app2 in Hi by exact Hge.
        destruct (i - List.length (Binary64.zoomHistory st))%nat
          as [ | k ] eqn:Ek.
        + simpl in Hi. inversion Hi; subst entry. simpl.
          replace i with (List.length (Binary64.zoomHistory st)) by lia.
          exact Hz.
        + simpl in Hi. destruct k; discriminate Hi. }
    split.
    { intros entry Hi.
      destruct (Binary64.zoomHistory st) as [ | x l ] eqn:Eh.
      - simpl in Hi. inversion Hi; subst entry. simpl.
        apply Hc. reflexivity.
      - simpl in Hi. apply H0. simpl. exact Hi. }
    split.
    { intro Habs. apply app_eq_nil in Habs. destruct Habs as [_ Habs].
      discriminate Habs. }
    left. reflexivity.
  - (* undo *)
    destruct (Binary64.zoomHistory st) as [ | x0 l0 ] eqn:Eh.
    { unfold Binary64.handleUndoZoom. rewrite Eh. exact Hinv. }
    assert (Hne : x0 :: l0 <> []) by discriminate.
    destruct (exists_last Hne) as (l & x & Hsplit).
    rewrite <- Eh in Hsplit.
    rewrite (binary64_undo_push st l x Hsplit).
    rewrite <- Eh in He, H0. rewrite Hsplit in He, H0.
    assert (Hx : nth_error (l ++ [x]) (List.length l) = Some x).
    { rewrite nth_error_app2 by lia.
      replace (List.length l - List.length l)%nat with 0%nat by lia.
      reflexivity. }
    unfold Binary64.depthInvariant.
    cbn [Binary64.zoom Binary64.zoomHistory Binary64.maxIterations
         Binary64.centerX Binary64.centerY].
    split; [ exact (He _ _ Hx) | ].
    split.
    { intros i entry Hi. apply He.
      rewrite nth_error_app1; [ exact Hi | ].
      apply nth_error_Some. rewrite Hi. discriminate. }
    split.
    { intros entry Hi. apply H0.
      rewrite nth_error_app1; [ exact Hi | ].
      apply nth_error_Some. rewrite Hi. discriminate. }
    split.
    { intro El. subst l. apply H0. reflexivity. }
    left. reflexivity.
  - (* reset *)
    unfold Binary64.handleResetView, Binary64.depthInvariant. simpl.
    split; [ reflexivity | ].
    split; [ intros [ | i ] entry H; discriminate H | ].
    split; [ intros entry H; discriminate H | ].
    split; [ intros _; split; reflexivity | ].
    right. split; reflexivity.
Qed.

Lemma binary64_depth_run (gs : list Binary64.Gesture) (st : Binary64.State) :
  Binary64.depthInvariant st -> Binary64.depthInvariant (Binary64.run gs st).
Proof.
  revert st. unfold Binary64.run.
  induction gs as [ | g gs IH ]; intros st Hinv; simpl.
  - exact Hinv.
  - apply IH, binary64_depth_step, Hinv.
Qed.

(** Zoom-ins outside selection mode each add one entry to the history. *)
Lemma binary64_zoomIns_depth (n : nat) (canvas : Binary64.Canvas)
    (e : Binary64.MouseEvent) (st : Binary64.State) :
  Binary64.isSelectingArea st = false ->
  List.length
    (Binary64.zoomHistory
       (Binary64.run (repeat (Binary64.ZoomIn (Some canvas) e) n) st))
  = (List.length (Binary64.zoomHistory st) + n)%nat.
Proof.
  revert st. induction n as [ | n IH ]; intros st Hsel.
  - simpl. lia.
  - change (Binary64.run (repeat (Binary64.ZoomIn (Some canvas) e) (S n)) st)
      with (Binary64.run (repeat (Binary64.ZoomIn (Some canvas) e) n)
              (Binary64.handleZoom (Some canvas) e st)).
    rewrite IH.
    + unfold Binary64.handleZoom. rewrite Hsel. simpl.
      rewrite length_app. simpl. lia.
    + unfold Binary64.handleZoom. rewrite Hsel. reflexivity.
Qed.

(** C9 as stated fails on doubles: after 1017 zoom-ins the zoom is
    [Infinity], which is [200 * 2^k] for no [k]. *)
Lemma zoom_overflow_counterexample :
  let st := Binary64.run Binary64.overflowClicks Binary64.initialState in
  List.length Binary64.overflowClicks = 1017%nat
  /\ Binary64.zoom st = infinity
  /\ ~ (exists k : Z, (0 <= k)%Z /\ Binary64.doubled k (Binary64.zoom st)).
Proof.
  cbv zeta.
  assert (Hz : Binary64.zoom
                 (Binary64.run Binary64.overflowClicks Binary64.initialState)
               = infinity).
  { destruct (binary64_depth_run Binary64.overflowClicks Binary64.initialState
                binary64_depth_initial) as (Hz & _).
    rewrite Hz. unfold Binary64.overflowClicks.
    rewrite binary64_zoomIns_depth by reflexivity.
    apply scale_overflow. unfold Binary64.lastFiniteDepth. simpl. lia. }
  split; [ apply repeat_length | ].
  split; [ exact Hz | ].
  rewrite Hz. intros (k & _ & q & Hq & _).
  vm_compute in Hq. discriminate Hq.
Qed.

(** C9, amended.  After any sequence of zoom-in, undo and reset gestures
    from the initial state, the zoom and the zoom of every history entry
    are [200 * 2^k] for some integer [0 <= k <= 1016], or [Infinity] (from
    the 1017th nested zoom-in on); hence the zoom is at least 200 and
    positive; and the iteration budget lies in [[100, 1000]]. *)
Theorem reachable_scale_on_doubles (gs : list Binary64.Gesture) :
  let st := Binary64.run gs Binary64.initialState in
  Binary64.reachableScale (Binary64.zoom st)
  /\ (forall entry, In entry (Binary64.zoomHistory st) ->
        Binary64.reachableScale (Binary64.prevZoom entry))
  /\ (200 <=? Binary64.zoom st)%float = true
  /\ (0 <? Binary64.zoom st)%float = true
  /\ Binary64.budgetInRange (Binary64.maxIterations st).
Proof.
  cbv zeta.
  destruct (binary64_depth_run gs Binary64.initialState
              binary64_depth_initial) as (Hz & He & _ & _ & Hb).
  split; [ rewrite Hz; apply scale_reachable | ].
  split.
  { intros entry Hin. apply In_nth_error in Hin. destruct Hin as [i Hi].
    rewrite (He i entry Hi). apply scale_reachable. }
  split; [ rewrite Hz; apply scale_at_least_200 | ].
  split; [ rewrite Hz; apply scale_at_least_200 | ].
  destruct Hb as [ Hb | [Hb _] ]; rewrite Hb.
  - rewrite Hz. apply budget_of_scale.
  - split; reflexivity.
Qed.

(** X14.  On doubles, in every state reached from the initial one by
    zoom-ins, undos and resets, with [n] the length of the history: the
    zoom is [200 * 2^n] while [n <= 1016] and [Infinity] beyond; entry [i]
    of the history holds [200 * 2^i], or [Infinity] beyond 1016; with an
    empty history the view is centred at the origin; and the budget is
    [min(1000, floor(100 * log2 zoom))], except in a fresh home view
    (empty history), where it may be 100. *)
Theorem reachable_depth_on_doubles (gs : list Binary64.Gesture) :
  let st := Binary64.run gs Binary64.initialState in
  let atDepth (n : nat) (z : float) :=
    ((n <= 1016)%nat -> Binary64.doubled (Z.of_nat n) z)
    /\ ((1016 < n)%nat -> z = infinity) in
  atDepth (List.length (Binary64.zoomHistory st)) (Binary64.zoom st)
  /\ (forall i entry, nth_error (Binary64.zoomHistory st) i = Some entry ->
        atDepth i (Binary64.prevZoom entry))
  /\ (Binary64.zoomHistory st = [] ->
        Binary64.centerX st = 0%float /\ Binary64.centerY st = 0%float)
  /\ (Binary64.maxIterations st = Binary64.iterationBudget (Binary64.zoom st)
      \/ (Binary64.maxIterations st = 100%float
          /\ Binary64.zoomHistory st = [])).
Proof.
  cbv zeta.
  destruct (binary64_depth_run gs Binary64.initialState
              binary64_depth_initial) as (Hz & He & _ & Hc & Hb).
  assert (Hdepth : forall n,
             ((n <= 1016)%nat ->
              Binary64.doubled (Z.of_nat n) (Binary64.scale n))
             /\ ((1016 < n)%nat -> Binary64.scale n = infinity)).
  { intro n. split; intro Hn.
    - apply scale_finite. exact Hn.
    - apply scale_overflow. exact Hn. }
  split; [ rewrite Hz; apply Hdepth | ].
  split; [ intros i entry Hi; rewrite (He i entry Hi); apply Hdepth | ].
  split; [ exact Hc | exact Hb ].
Qed.

(** * Rendering, budget and capture *)

(** X6.  On a buffer with positive sides and under a registered palette,
    the image data is complete: [height] rows of [width] pixels, every
    pixel a colour with channels in [[0, 255]].  The colour mapper never
    throws during a rendering, for any viewport and any integer budget:
    the ratio it is given is a count divided by the budget, which lies in
    [[0, 1]]. *)
Theorem drawMandelbrot_complete (st : State) (palette : ColorPalette)
    (w h : Z) (isMiniMap : bool) :
  (0 < w)%Z -> (0 < h)%Z ->
  colorPalettes (currentPalette st) = Some palette ->
  List.length (drawMandelbrot st w h isMiniMap) = Z.to_nat h
  /\ Forall (fun row =>
               List.length row = Z.to_nat w
               /\ Forall (fun px => exists c, px = Some c /\ channelsIn 0 255 c)
                         row)
            (drawMandelbrot st w h isMiniMap).
Proof.
  intros _ _ Hreg. unfold drawMandelbrot.
  split; [ rewrite length_map; apply upto_length | ].
  apply Forall_forall. intros row Hrow.
  apply in_map_iff in Hrow. destruct Hrow as (y & <- & _).
  split; [ rewrite length_map; apply upto_length | ].
  apply Forall_forall. intros px Hpx.
  apply in_map_iff in Hpx. destruct Hpx as (x & <- & _).
  exact (pixelColor_total st palette w h isMiniMap x y Hreg).
Qed.

Lemma drawMandelbrot_complete_witness :
  (0 < 800)%Z /\ (0 < 600)%Z
  /\ colorPalettes (currentPalette initialState) = Some palette_initial
  /\ List.length (drawMandelbrot initialState 800 600 false) = Z.to_nat 600
  /\ Forall (fun row =>
               List.length row = Z.to_nat 800
               /\ Forall (fun px => exists c, px = Some c /\ channelsIn 0 255 c)
                         row)
            (drawMandelbrot initialState 800 600 false).
Proof.
  assert (Hw : (0 < 800)%Z) by lia.
  assert (Hh : (0 < 600)%Z) by lia.
  assert (H : colorPalettes (currentPalette initialState)
              = Some palette_initial) by reflexivity.
  split; [ exact Hw | split; [ exact Hh | split; [ exact H | ] ] ].
  exact (drawMandelbrot_complete initialState palette_initial 800 600 false
           Hw Hh H).
Defined.

(** X11.  From zoom 1024 on the budget is the clamp: for every zoom of at
    least 1024, [min(1000, floor(100 * log2 zoom))] is 1000. *)
Theorem iterationBudget_saturated (z : Q) :
  1024 <= z -> iterationBudget z = 1000%Z.
Proof.
  intro Hge. unfold iterationBudget.
  assert (Hlow : (1000 <= Math.floor100log2 z)%Z).
  { unfold Math.floor100log2. apply floorLog2_lower.
    - apply Qpower_0_lt. lra.
    - rewrite two_pow_1000.
      apply Qpower_base_le; [ reflexivity | exact Hge | lia ]. }
  lia.
Qed.

Lemma iterationBudget_saturated_witness :
  1024 <= 1600 /\ iterationBudget 1600 = 1000%Z.
Proof.
  assert (H : 1024 <= 1600) by (vm_compute; discriminate).
  split; [ exact H | exact (iterationBudget_saturated 1600 H) ].
Defined.

(** X17.  A downloaded capture is well-formed: the sub-image has integer
    sides of at least one pixel, and the printed centre is the plane point
    that the live view shows at the middle of the selection rectangle (the
    same operations on the same numbers, the last sum taken in the other
    order). *)
Theorem capture_geometry (canvas : Canvas) (tempCtx : bool) (st st' : State)
    (c : Capture) (s e : Point) :
  handleMouseUp (Some canvas) tempCtx st = (Downloaded c, st') ->
  selectionStart st = Some s -> selectionEnd st = Some e ->
  0 < zoom st -> (0 < height canvas)%Z ->
  let W := width canvas in
  let H := height canvas in
  (1 <= imgWidth (image c))%Z /\ (1 <= imgHeight (image c))%Z
  /\ selectionCenterX c
     == planeX st W H false (selLeft s e + selWidth s e / 2)
  /\ selectionCenterY c
     == planeY st W H false (selTop s e + selHeight s e / 2).
Proof.
  intros Hup Hs He Hz HH. cbv zeta.
  apply handleMouseUp_downloaded in Hup.
  destruct Hup as (canvas' & s' & e' & Hc & _ & Hs' & He' & Himg
                   & Hcx & Hcy & _ & _).
  inversion Hc; subst canvas'.
  rewrite Hs in Hs'. rewrite He in He'.
  inversion Hs'; subst s'. inversion He'; subst e'.
  destruct (getImageData_some _ _ _ _ _ Himg) as (Hw0 & Hh0 & Ew & Eh).
  pose proof (toLong_nonneg_nonzero _ (selWidth_nonneg s e) Hw0) as Hw1.
  pose proof (toLong_nonneg_nonzero _ (selHeight_nonneg s e) Hh0) as Hh1.
  split.
  { rewrite Ew. unfold toLong.
    replace (Qle_bool 0 (selWidth s e)) with true
      by (symmetry; apply Qle_bool_iff, selWidth_nonneg).
    change 1%Z with (Qfloor 1). apply Qfloor_resp_le. exact Hw1. }
  split.
  { rewrite Eh. unfold toLong.
    replace (Qle_bool 0 (selHeight s e)) with true
      by (symmetry; apply Qle_bool_iff, selHeight_nonneg).
    change 1%Z with (Qfloor 1). apply Qfloor_resp_le. exact Hh1. }
  split.
  - rewrite Hcx. unfold planeX. apply Qplus_comm.
  - rewrite Hcy. unfold planeY. apply Qplus_comm.
Qed.

Lemma capture_geometry_witness :
  let canvas := canvas800x600 0 0 in
  let s := {| ptX := 100; ptY := 100 |} in
  let e := {| ptX := 300; ptY := 200 |} in
  let st := withSelection initialState true (Some s) (Some e) in
  let c := {| image := {| imgLeft := 100; imgTop := 100;
                          imgWidth := 200; imgHeight := 100 |};
              selectionCenterX :=
                0 + ((100 + Qabs (300 - 100) / 2 - inject_Z 800 / 2) / 200)
                    * (inject_Z 800 / inject_Z 600);
              selectionCenterY :=
                0 + (100 + Qabs (200 - 100) / 2 - inject_Z 600 / 2) / 200;
              selectionZoom :=
                200 * Qmin (inject_Z 800 / Qabs (300 - 100))
                           (inject_Z 600 / Qabs (200 - 100)) |} in
  (1 <= imgWidth (image c))%Z /\ (1 <= imgHeight (image c))%Z
  /\ selectionCenterX c
     == planeX st 800 600 false (selLeft s e + selWidth s e / 2)
  /\ selectionCenterY c
     == planeY st 800 600 false (selTop s e + selHeight s e / 2).
Proof.
  cbv zeta.
  apply (capture_geometry (canvas800x600 0 0) true
           (withSelection initialState true
              (Some {| ptX := 100; ptY := 100 |})
              (Some {| ptX := 300; ptY := 200 |}))
           (withSelection
              (withSelection initialState true
                 (Some {| ptX := 100; ptY := 100 |})
                 (Some {| ptX := 300; ptY := 200 |}))
              false None None));
    reflexivity.
Defined.
